(** * Remote-control protocol of the video editor: Renderer and VideoCreatorStore

    A shallow embedding of [Renderer] (the correlation-id RPC over
    [postMessage], the event dispatcher and the element-tree operations) and of
    the parts of [VideoCreatorStore] that drive it, with the properties the
    specification states about them. *)

From Stdlib Require Import QArith Lqa.
From stdpp Require Import gmap strings list.

Open Scope string_scope.
Open Scope list_scope.
Set Warnings "-register-all".

(** ** JavaScript values *)

Module Js.

(** A JavaScript number: the two non-finite kinds JSON cannot carry, and the
    finite ones (every finite double is a rational; negative zero is
    identified with zero). *)
Inductive JsNumber :=
| NaN
| Infinity (negative : bool)
| Finite (x : Q).

(** Plain data as it travels through [postMessage] and sits in source
    descriptors.  An object is the list of its own enumerable properties in
    enumeration order. *)
Inductive JsValue :=
| JUndefined
| JNull
| JBool (b : bool)
| JNum (n : JsNumber)
| JStr (s : string)
| JArr (items : list JsValue)
| JObj (props : list (string * JsValue)).

(** [Record<string, any>] *)
Definition JsObject := list (string * JsValue).

(** ToBoolean, as [if (x)] and [!x] apply it. *)
Definition truthy (v : JsValue) : bool :=
  match v with
  | JUndefined | JNull => false
  | JBool b => b
  | JNum NaN => false
  | JNum (Infinity _) => true
  | JNum (Finite x) => negb (Qnum x =? 0)%Z
  | JStr s => negb (String.eqb s "")
  | JArr _ | JObj _ => true
  end.

(** [o.k] on a plain data object, for a key [k] that [Object.prototype] does
    not define ([type], [id], [time], [elementIds], ...): the own property, or
    [undefined]. *)
Fixpoint get (k : string) (o : JsObject) : JsValue :=
  match o with
  | [] => JUndefined
  | (k', v) :: o' => if String.eqb k' k then v else get k o'
  end.

Definition has_own (k : string) (o : JsObject) : bool :=
  existsb (fun kv => String.eqb (fst kv) k) o.

(** [o[k] = v] while an object literal is built: an existing property keeps
    its place and takes the new value, a new one goes last. *)
Fixpoint set_prop (k : string) (v : JsValue) (o : JsObject) : JsObject :=
  match o with
  | [] => [(k, v)]
  | (k', v') :: o' =>
      if String.eqb k' k then (k, v) :: o' else (k', v') :: set_prop k v o'
  end.

(** [{ ...a, ...b }] continued from the literal built so far. *)
Definition spread (b : JsObject) (acc : JsObject) : JsObject :=
  fold_left (fun o kv => set_prop (fst kv) (snd kv) o) b acc.

Definition keys (o : JsObject) : list string := map fst o.

(** [JSON.parse(JSON.stringify(v))] on plain data.  [stringify] leaves out an
    object property whose value is [undefined], writes [null] for an
    [undefined] array item and for a number that is not finite; [parse] reads
    everything else back as it was. *)
Fixpoint json_clone (v : JsValue) : JsValue :=
  match v with
  | JUndefined => JUndefined
  | JNull => JNull
  | JBool b => JBool b
  | JNum (Finite x) => JNum (Finite x)
  | JNum _ => JNull
  | JStr s => JStr s
  | JArr items =>
      JArr (map (fun x => match x with
                          | JUndefined => JNull
                          | _ => json_clone x
                          end) items)
  | JObj props =>
      JObj ((fix clone_props (ps : list (string * JsValue)) : list (string * JsValue) :=
               match ps with
               | [] => []
               | (k, JUndefined) :: ps' => clone_props ps'
               | (k, x) :: ps' => (k, json_clone x) :: clone_props ps'
               end) props)
  end.

(** The same on the properties of a top-level object. *)
Definition json_clone_object (o : JsObject) : JsObject :=
  match json_clone (JObj o) with
  | JObj props => props
  | _ => []
  end.

End Js.
Export Js.

(** ** State trees *)

(** Modelled from the spec: the declarations of [ElementState] and
    [RendererState] (src/renderer/ElementState.ts, RendererState.ts) are not
    among the sources.  Each state node holds its source descriptor, optionally
    the sequence of its child state nodes, and the fields the peer resolved
    for it (the track number among them).  The tree operations are declared on
    [{ source: Record<string, any>; elements?: ElementState[] }], which both
    the root state and every element state satisfy. *)
Inductive ElementState := mkElementState {
  source : JsObject;
  elements : option (list ElementState);
  resolved : JsObject
}.

Abbreviation RendererState := ElementState (only parsing).

(** [element.track] *)
Definition track (e : ElementState) : JsValue := get "track" (resolved e).

Section ElementState_induction.
Variable P : ElementState -> Prop.
Hypothesis leaf : forall src res, P (mkElementState src None res).
Hypothesis node : forall src els res,
    Forall P els -> P (mkElementState src (Some els) res).

Fixpoint ElementState_tree_ind (e : ElementState) : P e :=
  match e with
  | mkElementState src None res => leaf src res
  | mkElementState src (Some els) res =>
      node src els res
        ((fix all (l : list ElementState) : Forall P l :=
            match l with
            | [] => @List.Forall_nil _ P
            | x :: l' => @List.Forall_cons _ P x l' (ElementState_tree_ind x) (all l')
            end) els)
  end.
End ElementState_induction.

(** Every node of a state tree, depth first, a node before its descendants
    and a node's descendants before its next sibling. *)
Fixpoint preorder (state : ElementState) : list ElementState :=
  state ::
  match state with
  | mkElementState _ (Some els) _ => flat_map preorder els
  | mkElementState _ None _ => []
  end.

(** The nodes strictly below [state], in the same order. *)
Definition descendants (state : ElementState) : list ElementState :=
  match elements state with
  | Some els => flat_map preorder els
  | None => []
  end.

(** A descriptor has a type tag when [source.type] is truthy. *)
Definition has_type_tag (e : ElementState) : bool :=
  truthy (get "type" (source e)).

(** ** The Renderer object *)

Module Renderer.

(** A closure stored in one of the observer fields, by its identity. *)
Definition Callback := nat.

(** A promise created by [_sendCommand], by its identity.  The pending table
    holds the promise's own [{ resolve, reject }] pair, so an entry is known
    by the promise it settles. *)
Definition PromiseRef := nat.

(** What the class reads and writes of its [<iframe>]: whether it still sits
    under the host element (only then has it a [contentWindow]), its
    [style.display] and its [src]. *)
Record Iframe := mkIframe {
  attached : bool;
  display : string;
  src : string
}.

Record Renderer := mkRenderer {
  onReady : option Callback;
  onLoad : option Callback;
  onLoadComplete : option Callback;
  onPlay : option Callback;
  onPause : option Callback;
  onError : option Callback;
  onTimeChange : option Callback;
  onActiveElementsChange : option Callback;
  onStateChange : option Callback;
  state : option ElementState;
  _iframe : Iframe;
  _pendingPromises : gmap string PromiseRef
}.

Definition set_state (v : option ElementState) (r : Renderer) : Renderer :=
  mkRenderer (onReady r) (onLoad r) (onLoadComplete r) (onPlay r) (onPause r)
    (onError r) (onTimeChange r) (onActiveElementsChange r) (onStateChange r)
    v (_iframe r) (_pendingPromises r).

Definition set_iframe (v : Iframe) (r : Renderer) : Renderer :=
  mkRenderer (onReady r) (onLoad r) (onLoadComplete r) (onPlay r) (onPause r)
    (onError r) (onTimeChange r) (onActiveElementsChange r) (onStateChange r)
    (state r) v (_pendingPromises r).

Definition set_pendingPromises (v : gmap string PromiseRef) (r : Renderer) : Renderer :=
  mkRenderer (onReady r) (onLoad r) (onLoadComplete r) (onPlay r) (onPause r)
    (onError r) (onTimeChange r) (onActiveElementsChange r) (onStateChange r)
    (state r) (_iframe r) v.

(** The [...args] object of [_handleMessage]: the fields of the payload other
    than [id], [message] and [error].  [state] is kept apart from the rest
    because it is the one field read as a state tree. *)
Record Args := mkArgs {
  args_state : option ElementState;
  args_rest : JsObject
}.

(** An inbound payload that is a non-null object, following the transport
    envelope: [id], [message] and [error] are strings when present ([None] is
    an absent field), [state] a state tree when present. *)
Record DataObject := mkData {
  data_id : option string;
  data_message : option string;
  data_error : option string;
  data_args : Args
}.

(** An argument handed to an observer. *)
Inductive CallArg :=
| ArgValue (v : JsValue)
| ArgState (s : option ElementState).

(** What a method does to the world outside the Renderer's own fields. *)
Inductive Effect :=
| PostMessage (payload : JsObject)
| Resolve (p : PromiseRef) (value : Args)
| Reject (p : PromiseRef) (reason : string)
| Notify (cb : Callback) (this : Renderer) (args : list CallArg).

Inductive Completion :=
| Returned
| Threw (error : string).

(** *** constructor and dispose *)

(** [new Renderer(element, mode, publicToken)]: no observer, no state, an
    empty pending table, and a hidden frame put under [element]. *)
Definition new (mode publicToken : string) : Renderer :=
  mkRenderer None None None None None None None None None None
    (mkIframe true "none"
       ("https://creatomate.com/embed?mode=" ++ mode ++ "&token=" ++ publicToken))
    ∅.

(** [dispose()] takes the frame out of its parent and blanks its [src].  The
    removal of the window's message listener is the [listening] flag of
    [World] below. *)
Definition dispose (this : Renderer) : Renderer :=
  set_iframe (mkIframe false (display (_iframe this)) "") this.

(** *** The element tree *)

(** A parameter declared [state = this.state]: an [undefined] argument takes
    the cached state. *)
Definition default_state (this : Renderer) (arg : option ElementState) : option ElementState :=
  match arg with
  | Some s => Some s
  | None => state this
  end.

(** The branches of [getSource] taken on a state that is there.  The literal
    [{ ...state.source, elements: ... }] is a new object with the properties of
    [state.source] in their order, and [elements] set on it. *)
Fixpoint getSource_of (state : ElementState) : JsObject :=
  match state with
  | mkElementState source (Some elements) _ =>
      set_prop "elements" (JArr (map (fun element => JObj (getSource_of element)) elements))
        source
  | mkElementState source None _ => source
  end.

Definition getSource (this : Renderer) (arg : option ElementState) : JsObject :=
  match default_state this arg with
  | None => []
  | Some state => getSource_of state
  end.

Fixpoint getElements_of (state : ElementState) : list ElementState :=
  (if truthy (get "type" (source state)) then [state] else []) ++
  match state with
  | mkElementState _ (Some elements) _ => flat_map getElements_of elements
  | mkElementState _ None _ => []
  end.

Definition getElements (this : Renderer) (arg : option ElementState) : list ElementState :=
  match default_state this arg with
  | None => []
  | Some state => getElements_of state
  end.

Fixpoint findElement_of (predicate : ElementState -> bool) (state : ElementState)
  : option ElementState :=
  match state with
  | mkElementState _ (Some elements) _ =>
      (fix loop (rest : list ElementState) : option ElementState :=
         match rest with
         | [] => None
         | element :: rest' =>
             if predicate element then Some element
             else
               match
                 match element with
                 | mkElementState _ (Some _) _ => findElement_of predicate element
                 | mkElementState _ None _ => None
                 end
               with
               | Some foundNestedElement => Some foundNestedElement
               | None => loop rest'
               end
         end) elements
  | mkElementState _ None _ => None
  end.

Definition findElement (this : Renderer) (predicate : ElementState -> bool)
    (arg : option ElementState) : option ElementState :=
  match default_state this arg with
  | None => None
  | Some state => findElement_of predicate state
  end.

(** *** Commands *)

(** [_sendCommand(message)], where [id] is what [uuid()] returned and [p] the
    promise the call creates and returns.  The payload is posted when the frame
    has a [contentWindow]; the promise is registered either way.  [uuid()]
    yields 36 characters of hexadecimal digits and dashes, so the assignment
    is an own-property write (see [is_uuid]). *)
Definition _sendCommand (id : string) (p : PromiseRef) (message : JsObject)
    (this : Renderer) : Renderer * list Effect :=
  (set_pendingPromises (<[id := p]> (_pendingPromises this)) this,
   if attached (_iframe this)
   then [PostMessage (spread (json_clone_object message) [("id", JStr id)])]
   else []).

(** The identifiers [uuid()] produces: [xxxxxxxx-xxxx-xxxx-xxxx-xxxxxxxxxxxx]
    in lower-case hexadecimal digits. *)
Definition is_hex_digit (c : Ascii.ascii) : bool :=
  let n := Ascii.nat_of_ascii c in
  (((48 <=? n) && (n <=? 57)) || ((97 <=? n) && (n <=? 102)))%nat.

Fixpoint is_uuid_from (i : nat) (s : string) : bool :=
  match s with
  | EmptyString => Nat.eqb i 36
  | String c s' =>
      (if (Nat.eqb i 8 || Nat.eqb i 13 || Nat.eqb i 18 || Nat.eqb i 23)%bool
       then Ascii.eqb c (Ascii.ascii_of_nat 45)
       else is_hex_digit c) && is_uuid_from (S i) s'
  end.

Definition is_uuid (s : string) : bool := is_uuid_from 0 s.

(** The public commands, by the object literal each one hands to
    [_sendCommand] and by the prefix its [catch] puts before the message of a
    failure. *)
Inductive Command :=
| LoadTemplate (templateId : string)
| SetSource (source : JsObject) (createUndoPoint : bool)
| SetModifications (modifications : JsObject)
| ApplyModifications (modifications : JsObject)
| Undo
| Redo
| SetActiveElements (elementIds : list string)
| SetTime (time : JsNumber)
| Play
| Pause.

Definition command_name (c : Command) : string :=
  match c with
  | LoadTemplate _ => "setTemplate"
  | SetSource _ _ => "setSource"
  | SetModifications _ => "setModifications"
  | ApplyModifications _ => "applyModifications"
  | Undo => "undo"
  | Redo => "redo"
  | SetActiveElements _ => "setActiveElements"
  | SetTime _ => "setTime"
  | Play => "play"
  | Pause => "pause"
  end.

(** The properties of the literal after [message]. *)
Definition command_params (c : Command) : JsObject :=
  match c with
  | LoadTemplate templateId => [("templateId", JStr templateId)]
  | SetSource source createUndoPoint =>
      [("source", JObj source); ("createUndoPoint", JBool createUndoPoint)]
  | SetModifications modifications => [("modifications", JObj modifications)]
  | ApplyModifications modifications => [("modifications", JObj modifications)]
  | SetActiveElements elementIds => [("elementIds", JArr (map JStr elementIds))]
  | SetTime time => [("time", JNum time)]
  | Undo | Redo | Play | Pause => []
  end.

Definition command_message (c : Command) : JsObject :=
  ("message", JStr (command_name c)) :: command_params c.

Definition failure_prefix (c : Command) : string :=
  match c with
  | LoadTemplate _ => "Failed to load template: "
  | SetSource _ _ => "Failed to set source: "
  | SetModifications _ => "Failed to set modifications: "
  | ApplyModifications _ => "Failed to apply modifications: "
  | Undo => "Failed to undo: "
  | Redo => "Failed to redo: "
  | SetActiveElements _ => "Failed to set active elements: "
  | SetTime _ => "Failed set time: "
  | Play => "Failed to play: "
  | Pause => "Failed to pause: "
  end.

(** [loadTemplate], [setSource], ..., [pause] up to the promise they wait
    for: each is [this._sendCommand({ message: ..., ... })].  What follows the
    promise ([caught] below; for [loadTemplate] and [setSource] also showing
    the frame) is not part of [send]. *)
Definition send (id : string) (p : PromiseRef) (c : Command) (this : Renderer)
  : Renderer * list Effect :=
  _sendCommand id p (command_message c) this.

Definition loadTemplate id p templateId := send id p (LoadTemplate templateId).
Definition setSource id p source createUndoPoint := send id p (SetSource source createUndoPoint).
Definition setModifications id p modifications := send id p (SetModifications modifications).
Definition applyModifications id p modifications := send id p (ApplyModifications modifications).
Definition undo id p := send id p Undo.
Definition redo id p := send id p Redo.
Definition setActiveElements id p elementIds := send id p (SetActiveElements elementIds).
Definition setTime id p time := send id p (SetTime time).
Definition play id p := send id p Play.
Definition pause id p := send id p Pause.

(** *** Inbound messages *)

(** [_pendingPromises] starts as the literal [{}], so reading a key it does not
    own falls through to [Object.prototype]; these are the keys found there,
    every one of them holding a truthy value without [resolve] or [reject]. *)
Definition object_prototype_members : list string :=
  [ "constructor"; "__defineGetter__"; "__defineSetter__"; "hasOwnProperty";
    "__lookupGetter__"; "__lookupSetter__"; "isPrototypeOf";
    "propertyIsEnumerable"; "toString"; "valueOf"; "__proto__";
    "toLocaleString" ].

Inductive PendingLookup :=
| Own (p : PromiseRef)
| Inherited
| Absent.

(** [this._pendingPromises[id]] *)
Definition lookup_pending (this : Renderer) (id : string) : PendingLookup :=
  match _pendingPromises this !! id with
  | Some p => Own p
  | None =>
      if bool_decide (id ∈ object_prototype_members) then Inherited else Absent
  end.

(** Truthiness of a field that is a string when present. *)
Definition truthy_field (f : option string) : bool :=
  match f with
  | Some s => truthy (JStr s)
  | None => false
  end.

(** [if (this.onX) { this.onX(this, ...) }] *)
Definition notify (observer : option Callback) (this : Renderer) (args : list CallArg)
  : list Effect :=
  match observer with
  | Some cb => [Notify cb this args]
  | None => []
  end.

(** The [switch (message)] of [_handleMessage].  [error] was taken out of
    [args] by the destructuring, so [args.error] is [undefined]. *)
Definition dispatch_event (this : Renderer) (message : option string) (args : Args)
  : Renderer * list Effect :=
  match message with
  | None => (this, [])
  | Some name =>
      if String.eqb name "onReady" then (this, notify (onReady this) this [])
      else if String.eqb name "onLoad" then (this, notify (onLoad this) this [])
      else if String.eqb name "onLoadComplete" then
        (this, notify (onLoadComplete this) this [])
      else if String.eqb name "onPlay" then (this, notify (onPlay this) this [])
      else if String.eqb name "onPause" then (this, notify (onPause this) this [])
      else if String.eqb name "onError" then
        (this, notify (onError this) this [ArgValue JUndefined])
      else if String.eqb name "onTimeChange" then
        (this, notify (onTimeChange this) this [ArgValue (get "time" (args_rest args))])
      else if String.eqb name "onActiveElementsChange" then
        (this, notify (onActiveElementsChange this) this
                 [ArgValue (get "elementIds" (args_rest args))])
      else if String.eqb name "onStateChange" then
        let this' := set_state (args_state args) this in
        (this', notify (onStateChange this') this' [ArgState (args_state args)])
      else (this, [])
  end.

(** [_handleMessage(e)] on [e.data]; [None] is a payload that is falsy or
    not of type [object].  The completion is the handler's own: an observer
    it calls is outside the class. *)
Definition _handleMessage (this : Renderer) (data : option DataObject)
  : Renderer * list Effect * Completion :=
  match data with
  | None => (this, [], Returned)
  | Some d =>
      if truthy_field (data_id d) then
        match lookup_pending this (default "" (data_id d)) with
        | Own pendingPromise =>
            (set_pendingPromises
               (delete (default "" (data_id d)) (_pendingPromises this)) this,
             [ if truthy_field (data_error d)
               then Reject pendingPromise (default "" (data_error d))
               else Resolve pendingPromise (data_args d) ],
             Returned)
        | Inherited =>
            (this, [],
             Threw (if truthy_field (data_error d)
                    then "TypeError: pendingPromise.reject is not a function"
                    else "TypeError: pendingPromise.resolve is not a function"))
        | Absent => (this, [], Returned)
        end
      else
        let '(this', effects) := dispatch_event this (data_message d) (data_args d) in
        (this', effects, Returned)
  end.

End Renderer.

(** ** The window the Renderer lives in *)

Module Window.
Import Renderer.

(** One Renderer, whether its [_handleMessage] is still among the window's
    [message] listeners, the promises created so far, and everything its
    methods did to the outside, oldest first. *)
Record World := mkWorld {
  renderer : Renderer;
  listening : bool;
  promises : nat;
  log : list Effect;
  uncaught : list string
}.

(** [new Renderer(...)] in a window where nothing happened yet. *)
Definition create (mode publicToken : string) : World :=
  mkWorld (Renderer.new mode publicToken) true 0 [] [].

(** [renderer.dispose()] *)
Definition dispose (w : World) : World :=
  mkWorld (Renderer.dispose (renderer w)) false (promises w) (log w) (uncaught w).

(** A command is issued: [uuid()] returns [id], a promise is created. *)
Definition issue (id : string) (c : Command) (w : World) : PromiseRef * World :=
  let p := promises w in
  let '(r, effects) := send id p c (renderer w) in
  (p, mkWorld r (listening w) (S p) (log w ++ effects) (uncaught w)).

(** A [message] event reaches the window. *)
Definition deliver (data : option DataObject) (w : World) : World :=
  if listening w then
    let '(r, effects, completion) := _handleMessage (renderer w) data in
    mkWorld r (listening w) (promises w) (log w ++ effects)
      (uncaught w ++ match completion with
                     | Returned => []
                     | Threw error => [error]
                     end)
  else w.

Fixpoint issue_all (cs : list (string * Command)) (w : World) : list PromiseRef * World :=
  match cs with
  | [] => ([], w)
  | (id, c) :: cs' =>
      let '(p, w1) := issue id c w in
      let '(ps, w2) := issue_all cs' w1 in
      (p :: ps, w2)
  end.

Definition deliver_all (ds : list (option DataObject)) (w : World) : World :=
  fold_left (fun w d => deliver d w) ds w.

(** The calls made on the [resolve] and [reject] of promise [p], in order. *)
Inductive Settlement :=
| Resolved (value : Args)
| Rejected (reason : string).

Definition settlement_of (p : PromiseRef) (e : Effect) : option Settlement :=
  match e with
  | Resolve q value => if Nat.eqb p q then Some (Resolved value) else None
  | Reject q reason => if Nat.eqb p q then Some (Rejected reason) else None
  | _ => None
  end.

Definition settlements (p : PromiseRef) (l : list Effect) : list Settlement :=
  omap (settlement_of p) l.

(** What the promise a public command returns settles with, given how the
    promise of [_sendCommand] settled: [.catch] passes a value through and
    rethrows a failure under the command's prefix. *)
Definition caught (c : Command) (s : Settlement) : Settlement :=
  match s with
  | Resolved value => Resolved value
  | Rejected reason => Rejected (failure_prefix c ++ reason)
  end.

(** The result a reply carries: a failure made from [error] when that field
    is truthy, the remaining fields otherwise. *)
Definition carried (d : DataObject) : Settlement :=
  if truthy_field (data_error d)
  then Rejected (default "" (data_error d))
  else Resolved (data_args d).

End Window.

(** ** The store *)

Module VideoCreatorStore.

(** The fields of [VideoCreatorStore] its selection and playback methods use.
    [renderer] is the Renderer the store holds, as it currently is.  ([tracks]
    is recomputed from [state] with [groupBy], and [timelineScale] is a
    constant of the view; no method below reads either.) *)
Record VideoCreatorStore := mkStore {
  renderer : option Renderer.Renderer;
  state : option RendererState;
  activeElementIds : list string;
  isLoading : bool;
  isPlaying : bool;
  time : JsNumber;
  isScrubbing : bool
}.

(** [new VideoCreatorStore()] *)
Definition new : VideoCreatorStore :=
  mkStore None None [] true false (Finite 0) false.

Definition set_renderer (v : option Renderer.Renderer) (s : VideoCreatorStore) :=
  mkStore v (state s) (activeElementIds s) (isLoading s) (isPlaying s) (time s)
    (isScrubbing s).

Definition set_state (v : option RendererState) (s : VideoCreatorStore) :=
  mkStore (renderer s) v (activeElementIds s) (isLoading s) (isPlaying s) (time s)
    (isScrubbing s).

Definition set_activeElementIds (v : list string) (s : VideoCreatorStore) :=
  mkStore (renderer s) (state s) v (isLoading s) (isPlaying s) (time s)
    (isScrubbing s).

Definition set_isLoading (v : bool) (s : VideoCreatorStore) :=
  mkStore (renderer s) (state s) (activeElementIds s) v (isPlaying s) (time s)
    (isScrubbing s).

Definition set_isPlaying (v : bool) (s : VideoCreatorStore) :=
  mkStore (renderer s) (state s) (activeElementIds s) (isLoading s) v (time s)
    (isScrubbing s).

Definition set_time (v : JsNumber) (s : VideoCreatorStore) :=
  mkStore (renderer s) (state s) (activeElementIds s) (isLoading s) (isPlaying s) v
    (isScrubbing s).

Definition set_isScrubbing (v : bool) (s : VideoCreatorStore) :=
  mkStore (renderer s) (state s) (activeElementIds s) (isLoading s) (isPlaying s)
    (time s) v.

(** [await this.renderer?.command(...)] up to the [await]. *)
Definition forward (id : string) (p : Renderer.PromiseRef) (c : Renderer.Command)
    (this : VideoCreatorStore) : VideoCreatorStore * list Renderer.Effect :=
  match renderer this with
  | Some r =>
      let '(r', effects) := Renderer.send id p c r in
      (set_renderer (Some r') this, effects)
  | None => (this, [])
  end.

(** [setTime(time)] *)
Definition setTime (id : string) (p : Renderer.PromiseRef) (time : JsNumber)
    (this : VideoCreatorStore) : VideoCreatorStore * list Renderer.Effect :=
  forward id p (Renderer.SetTime time) (set_time time this).

(** [setActiveElements(...elementIds)] *)
Definition setActiveElements (id : string) (p : Renderer.PromiseRef)
    (elementIds : list string) (this : VideoCreatorStore)
  : VideoCreatorStore * list Renderer.Effect :=
  forward id p (Renderer.SetActiveElements elementIds)
    (set_activeElementIds elementIds this).

(** [element.source.id === id], where [id] is the first item of a list of
    strings, or [undefined] when the list is empty. *)
Definition same_id (v : JsValue) (id : option string) : bool :=
  match v, id with
  | JStr s, Some s' => String.eqb s s'
  | JUndefined, None => true
  | _, _ => false
  end.

(** [getActiveElement()] called on [this], in a module whose exported
    singleton is [videoCreator]. *)
Definition getActiveElement (videoCreator this : VideoCreatorStore)
  : option ElementState :=
  match renderer this with
  | None => None
  | Some r =>
      if Nat.eqb (length (activeElementIds this)) 0 then None
      else
        let id := head (activeElementIds videoCreator) in
        Renderer.findElement r
          (fun element => same_id (get "id" (source element)) id) (state this)
  end.

(** [getDefaultSource()] *)
Definition getDefaultSource : JsObject :=
  [ ("output_format", JStr "mp4");
    ("width", JNum (Finite 1080));
    ("height", JNum (Finite 1080));
    ("elements",
     JArr
       [ JObj
           [ ("id", JStr "062c5fa2-b9d1-4ebd-a8df-3f85f0d4ce89");
             ("type", JStr "image");
             ("track", JNum (Finite 1));
             ("duration", JNum (Finite (137 # 20)));
             ("clip", JBool true);
             ("animations",
              JArr
                [ JObj
                    [ ("easing", JStr "linear");
                      ("type", JStr "scale");
                      ("fade", JBool false);
                      ("scope", JStr "element");
                      ("end_scale", JStr "150%");
                      ("start_scale", JStr "100%") ] ]);
             ("source",
              JStr "https://creatomate-static.s3.amazonaws.com/video-creator-js/eberhard-grossgasteiger-y2azHvupCVo-unsplash.jpg") ];
         JObj
           [ ("id", JStr "46103952-a528-465c-be32-58a5678c929d");
             ("type", JStr "shape");
             ("track", JNum (Finite 2));
             ("duration", JNum (Finite (137 # 20)));
             ("y", JStr "79.7102%");
             ("width", JStr "100%");
             ("height", JStr "40.5796%");
             ("x_anchor", JStr "50%");
             ("y_anchor", JStr "50%");
             ("fill_color",
              JArr
                [ JObj [ ("offset", JStr "0%"); ("color", JStr "rgba(0,0,0,0)") ];
                  JObj [ ("offset", JStr "100%"); ("color", JStr "rgba(0,0,0,0.7)") ] ]);
             ("fill_mode", JStr "linear");
             ("path", JStr "M 0 0 L 100 0 L 100 100 L 0 100 L 0 0 Z") ];
         JObj
           [ ("id", JStr "54f16c97-bcb1-4cab-9c64-3b763bcc4b89");
             ("name", JStr "Text-1");
             ("type", JStr "text");
             ("track", JNum (Finite 3));
             ("time", JNum (Finite 0));
             ("duration", JNum (Finite (137 # 20)));
             ("dynamic", JBool true);
             ("y", JStr "72.5428%");
             ("width", JStr "163.1503%");
             ("height", JStr "73.2647%");
             ("x_scale", JStr "50%");
             ("y_scale", JStr "50%");
             ("y_alignment", JStr "100%");
             ("fill_color", JStr "#ffffff");
             ("animations",
              JArr
                [ JObj
                    [ ("time", JStr "start");
                      ("duration", JNum (Finite 3));
                      ("easing", JStr "quadratic-out");
                      ("type", JStr "text-appear");
                      ("split", JStr "word") ] ]);
             ("text", JStr "Duis eget ex nec ipsum semper tempus nec vitae ante.");
             ("font_weight", JStr "800");
             ("line_height", JStr "87%") ] ]) ].

(** The observers [initializeVideoPlayer] puts on the Renderer, each as the
    change it makes to the store it closes over.  [onReady] sends the default
    source through the Renderer the store holds, with [createUndoPoint] left
    at its default. *)
Definition onReady (id : string) (p : Renderer.PromiseRef) (this : VideoCreatorStore)
  : VideoCreatorStore * list Renderer.Effect :=
  forward id p (Renderer.SetSource getDefaultSource false) this.

Definition onLoad (this : VideoCreatorStore) := set_isLoading true this.
Definition onLoadComplete (this : VideoCreatorStore) := set_isLoading false this.
Definition onPlay (this : VideoCreatorStore) := set_isPlaying true this.
Definition onPause (this : VideoCreatorStore) := set_isPlaying false this.

Definition onTimeChange (time : JsNumber) (this : VideoCreatorStore) :=
  if negb (isScrubbing this) then set_time time this else this.

Definition onActiveElementsChange (elementIds : list string) (this : VideoCreatorStore) :=
  set_activeElementIds elementIds this.

Definition onStateChange (state : RendererState) (this : VideoCreatorStore) :=
  set_state (Some state) this.

(** What can happen to a store between two reads of its playback time: a
    call of [setTime] or [setActiveElements], a view writing [isScrubbing],
    or one of the observers run by the Renderer. *)
Inductive Action :=
| CallSetTime (id : string) (p : Renderer.PromiseRef) (time : JsNumber)
| CallSetActiveElements (id : string) (p : Renderer.PromiseRef) (elementIds : list string)
| SetScrubbing (v : bool)
| EventReady (id : string) (p : Renderer.PromiseRef)
| EventLoad
| EventLoadComplete
| EventPlay
| EventPause
| EventTimeChange (time : JsNumber)
| EventActiveElementsChange (elementIds : list string)
| EventStateChange (state : RendererState).

Definition step (a : Action) (this : VideoCreatorStore) : VideoCreatorStore :=
  match a with
  | CallSetTime id p time => fst (setTime id p time this)
  | CallSetActiveElements id p elementIds => fst (setActiveElements id p elementIds this)
  | SetScrubbing v => set_isScrubbing v this
  | EventReady id p => fst (onReady id p this)
  | EventLoad => onLoad this
  | EventLoadComplete => onLoadComplete this
  | EventPlay => onPlay this
  | EventPause => onPause this
  | EventTimeChange time => onTimeChange time this
  | EventActiveElementsChange elementIds => onActiveElementsChange elementIds this
  | EventStateChange state => onStateChange state this
  end.

End VideoCreatorStore.

(** ** The tree operations as the specification words them *)

(** flatten: the nodes with a type tag, in depth-first pre-order. *)
Definition flatten_spec (state : option ElementState) : list ElementState :=
  match state with
  | None => []
  | Some root => List.filter has_type_tag (preorder root)
  end.

(** find as claimed: first match in pre-order over all nodes, the root too. *)
Definition find_from_root (predicate : ElementState -> bool)
    (state : option ElementState) : option ElementState :=
  match state with
  | None => None
  | Some root => List.find predicate (preorder root)
  end.

(** find over the nodes below the root only. *)
Definition find_below_root (predicate : ElementState -> bool)
    (state : option ElementState) : option ElementState :=
  match state with
  | None => None
  | Some root => List.find predicate (descendants root)
  end.

(** ** The protocol as the specification words it *)

(** The fixed event vocabulary, under the names the peer sends. *)
Inductive EventName :=
| ReadyEvent | LoadEvent | LoadCompleteEvent | PlayEvent | PauseEvent | ErrorEvent
| TimeChangeEvent | ActiveElementsChangeEvent | StateChangeEvent.

Definition event_names : list (string * EventName) :=
  [ ("onReady", ReadyEvent); ("onLoad", LoadEvent); ("onLoadComplete", LoadCompleteEvent);
    ("onPlay", PlayEvent); ("onPause", PauseEvent); ("onError", ErrorEvent);
    ("onTimeChange", TimeChangeEvent);
    ("onActiveElementsChange", ActiveElementsChangeEvent);
    ("onStateChange", StateChangeEvent) ].

Definition recognize (message : option string) : option EventName :=
  match message with
  | None => None
  | Some name =>
      snd <$> List.find (fun entry => String.eqb (fst entry) name) event_names
  end.

(** The observer slot of an event, and what the observer is called with after
    the Renderer itself. *)
Definition observer_of (e : EventName) (r : Renderer.Renderer) : option Renderer.Callback :=
  match e with
  | ReadyEvent => Renderer.onReady r
  | LoadEvent => Renderer.onLoad r
  | LoadCompleteEvent => Renderer.onLoadComplete r
  | PlayEvent => Renderer.onPlay r
  | PauseEvent => Renderer.onPause r
  | ErrorEvent => Renderer.onError r
  | TimeChangeEvent => Renderer.onTimeChange r
  | ActiveElementsChangeEvent => Renderer.onActiveElementsChange r
  | StateChangeEvent => Renderer.onStateChange r
  end.

Definition observer_args (e : EventName) (args : Renderer.Args) : list Renderer.CallArg :=
  match e with
  | ErrorEvent => [Renderer.ArgValue JUndefined]
  | TimeChangeEvent => [Renderer.ArgValue (get "time" (Renderer.args_rest args))]
  | ActiveElementsChangeEvent =>
      [Renderer.ArgValue (get "elementIds" (Renderer.args_rest args))]
  | StateChangeEvent => [Renderer.ArgState (Renderer.args_state args)]
  | _ => []
  end.

(** A world a program can reach: every promise in the pending table was
    created before now. *)
Definition consistent (w : Window.World) : Prop :=
  map_Forall (fun _ p => p < Window.promises w)
    (Renderer._pendingPromises (Window.renderer w)).

(** The selection lookup as the specification intends it: the first id of the
    instance's own list. *)
Definition getActiveElement_own (this : VideoCreatorStore.VideoCreatorStore)
  : option ElementState :=
  match VideoCreatorStore.renderer this with
  | None => None
  | Some r =>
      match VideoCreatorStore.activeElementIds this with
      | [] => None
      | id :: _ =>
          Renderer.findElement r
            (fun element => VideoCreatorStore.same_id (get "id" (source element)) (Some id))
            (VideoCreatorStore.state this)
      end
  end.

(** What [_handleMessage] calls on the entry it finds for a reply. *)
Definition settle (p : Renderer.PromiseRef) (d : Renderer.DataObject) : Renderer.Effect :=
  if Renderer.truthy_field (Renderer.data_error d)
  then Renderer.Reject p (default "" (Renderer.data_error d))
  else Renderer.Resolve p (Renderer.data_args d).

(** Promise [p] sits in the pending table under [id] and nowhere else. *)
Definition owned_by (w : Window.World) (id : string) (p : Renderer.PromiseRef) : Prop :=
  Renderer._pendingPromises (Window.renderer w) !! id = Some p
  ∧ ∀ k, k ≠ id → Renderer._pendingPromises (Window.renderer w) !! k ≠ Some p.

(** Promise [p] is not in the pending table. *)
Definition unowned (w : Window.World) (p : Renderer.PromiseRef) : Prop :=
  ∀ k, Renderer._pendingPromises (Window.renderer w) !! k ≠ Some p.

(** The [id] of a payload, when it is an object that has one. *)
Definition id_of (o : option Renderer.DataObject) : option string :=
  o ≫= Renderer.data_id.

(** ** Further vocabulary *)

Section JsValue_induction.
Variable P : JsValue -> Prop.
Hypothesis on_undefined : P JUndefined.
Hypothesis on_null : P JNull.
Hypothesis on_bool : forall b, P (JBool b).
Hypothesis on_num : forall n, P (JNum n).
Hypothesis on_str : forall s, P (JStr s).
Hypothesis on_arr : forall items, Forall P items -> P (JArr items).
Hypothesis on_obj : forall props, Forall (fun kv => P (snd kv)) props -> P (JObj props).

Fixpoint JsValue_tree_ind (v : JsValue) : P v :=
  match v with
  | JUndefined => on_undefined
  | JNull => on_null
  | JBool b => on_bool b
  | JNum n => on_num n
  | JStr s => on_str s
  | JArr items =>
      on_arr items
        ((fix all (l : list JsValue) : Forall P l :=
            match l with
            | [] => @List.Forall_nil _ P
            | x :: l' => @List.Forall_cons _ P x l' (JsValue_tree_ind x) (all l')
            end) items)
  | JObj props =>
      on_obj props
        ((fix all (l : list (string * JsValue)) : Forall (fun kv => P (snd kv)) l :=
            match l with
            | [] => @List.Forall_nil _ (fun kv => P (snd kv))
            | kv :: l' =>
                @List.Forall_cons _ (fun kv => P (snd kv)) kv l'
                  (JsValue_tree_ind (snd kv)) (all l')
            end) props)
  end.
End JsValue_induction.

(** A value JSON text can carry as it is: no [undefined] and no number that is
    not finite, anywhere inside. *)
Fixpoint json_safe (v : JsValue) : bool :=
  match v with
  | JUndefined => false
  | JNum (Finite _) => true
  | JNum _ => false
  | JNull | JBool _ | JStr _ => true
  | JArr items => forallb json_safe items
  | JObj props =>
      (fix all (ps : list (string * JsValue)) : bool :=
         match ps with
         | [] => true
         | (_, x) :: ps' => json_safe x && all ps'
         end) props
  end.



Definition is_post (e : Renderer.Effect) : bool :=
  match e with
  | Renderer.PostMessage _ => true
  | _ => false
  end.

(** A state tree whose nodes carry, under [elements] of their descriptor, the
    descriptors of their children: the tree the peer builds from a source
    document. *)
Fixpoint mirrors_source (state : ElementState) : Prop :=
  match state with
  | mkElementState descriptor (Some children) _ =>
      has_own "elements" descriptor = true
      ∧ get "elements" descriptor = JArr (map (fun child => JObj (source child)) children)
      ∧ (fix all (l : list ElementState) : Prop :=
           match l with
           | [] => True
           | child :: l' => mirrors_source child ∧ all l'
           end) children
  | mkElementState _ None _ => True
  end.

(** ** Numbers *)

Module JsNum.

(** [Number.isSafeInteger]: an integer of magnitude at most 2^53 - 1. *)
Definition is_safe_integer (n : JsNumber) : bool :=
  match n with
  | Finite x => (Qden x =? 1)%positive && (Z.abs (Qnum x) <=? 2 ^ 53 - 1)%Z
  | _ => false
  end.

(** [a + b].  On two finite numbers this is the exact sum, which is what the
    double addition gives whenever the exact sum is a double, as it is for a
    safe integer plus or minus one; the theorems that go through a finite sum
    assume their operands are such. *)
Definition add (a b : JsNumber) : JsNumber :=
  match a, b with
  | NaN, _ | _, NaN => NaN
  | Infinity s, Infinity s' => if Bool.eqb s s' then Infinity s else NaN
  | Infinity s, Finite _ | Finite _, Infinity s => Infinity s
  | Finite x, Finite y => Finite (x + y)
  end.

(** [a - b] *)
Definition sub (a b : JsNumber) : JsNumber :=
  add a match b with
        | NaN => NaN
        | Infinity s => Infinity (negb s)
        | Finite y => Finite (- y)
        end.

(** [a < b] *)
Definition lt (a b : JsNumber) : bool :=
  match a, b with
  | NaN, _ | _, NaN => false
  | Infinity s, Infinity s' => s && negb s'
  | Infinity s, Finite _ => s
  | Finite _, Infinity s => negb s
  | Finite x, Finite y => negb (Qle_bool y x)
  end.

(** [a === b] on numbers *)
Definition strict_eq (a b : JsNumber) : bool :=
  match a, b with
  | NaN, _ | _, NaN => false
  | Infinity s, Infinity s' => Bool.eqb s s'
  | Finite x, Finite y => Qeq_bool x y
  | _, _ => false
  end.

(** [Math.max(...numbers)]: minus infinity for no number, [NaN] as soon as one
    of them is [NaN]. *)
Definition max2 (a b : JsNumber) : JsNumber :=
  match a, b with
  | NaN, _ | _, NaN => NaN
  | _, _ => if lt a b then b else a
  end.

Definition max (numbers : list JsNumber) : JsNumber :=
  fold_left max2 numbers (Infinity true).

End JsNum.

(** ** Editing through the store *)

Module Editing.
Import VideoCreatorStore.

(** What a call has done by the time it returns or first waits: the store,
    what reached the outside, and whether it threw. *)
Definition Outcome : Type :=
  VideoCreatorStore * list Renderer.Effect * Renderer.Completion.

Definition nothing (this : VideoCreatorStore) : Outcome :=
  (this, [], Renderer.Returned).

(** Reading a property of [undefined]. *)
Definition type_error (this : VideoCreatorStore) : Outcome :=
  (this, [], Renderer.Threw "TypeError").

(** Modelled from the spec: [deepClone] (src/utility/deepClone.ts) is not
    among the sources; it gives a deep, independent copy, which as a value is
    the state it copies. *)
Definition deepClone (state : RendererState) : RendererState := state.

(** [await renderer.setSource(source, true)] up to the wait. *)
Definition setSource_with_undo (id : string) (p : Renderer.PromiseRef)
    (source : JsObject) (this : VideoCreatorStore) : Outcome :=
  let '(this', effects) := forward id p (Renderer.SetSource source true) this in
  (this', effects, Renderer.Returned).

(** [element.track], which is declared a number. *)
Definition track_number (element : ElementState) : JsNumber :=
  match track element with
  | JNum n => n
  | _ => NaN
  end.

(** [element.track === t] *)
Definition on_track (t : JsNumber) (element : ElementState) : bool :=
  match track element with
  | JNum n => JsNum.strict_eq n t
  | _ => false
  end.

(** [element.source.id !== elementId] *)
Definition other_than (elementId : string) (element : ElementState) : bool :=
  negb (same_id (get "id" (source element)) (Some elementId)).

(** [deleteElement(elementId)] *)
Definition deleteElement (id : string) (p : Renderer.PromiseRef) (elementId : string)
    (this : VideoCreatorStore) : Outcome :=
  match renderer this with
  | None => nothing this
  | Some r =>
      match Renderer.state r with
      | None => nothing this
      | Some current =>
          let state := deepClone current in
          match elements state with
          | None => type_error this
          | Some children =>
              let state :=
                mkElementState (source state)
                  (Some (List.filter (other_than elementId) children))
                  (resolved state) in
              setSource_with_undo id p (Renderer.getSource r (Some state)) this
          end
      end
  end.

Inductive Direction := up | down.

(** [element.source.track = t] *)
Definition with_source_track (t : JsNumber) (element : ElementState) : ElementState :=
  mkElementState (set_prop "track" (JNum t) (source element)) (elements element)
    (resolved element).

(** One turn of the loop that swaps the track numbers. *)
Definition swap_track (track targetTrack : JsNumber) (element : ElementState)
  : ElementState :=
  if on_track track element then with_source_track targetTrack element
  else if on_track targetTrack element then with_source_track track element
  else element.

(** [rearrangeTracks(track, direction)] *)
Definition rearrangeTracks (id : string) (p : Renderer.PromiseRef) (track : JsNumber)
    (direction : Direction) (this : VideoCreatorStore) : Outcome :=
  match renderer this with
  | None => nothing this
  | Some r =>
      match Renderer.state r with
      | None => nothing this
      | Some current =>
          let targetTrack :=
            match direction with
            | up => JsNum.add track (Finite 1)
            | down => JsNum.sub track (Finite 1)
            end in
          if JsNum.lt targetTrack (Finite 1) then nothing this
          else
            match elements current with
            | None => type_error this
            | Some children =>
                if Nat.eqb (length (List.filter (on_track track) children)) 0
                then nothing this
                else
                  let state := deepClone current in
                  let state :=
                    mkElementState (source state)
                      (Some (map (swap_track track targetTrack) children))
                      (resolved state) in
                  setSource_with_undo id p (Renderer.getSource r (Some state)) this
            end
      end
  end.

(** [source.elements.push(element)] *)
Definition push_element (element : JsObject) (source : JsObject) : option JsObject :=
  match get "elements" source with
  | JArr items => Some (set_prop "elements" (JArr (items ++ [JObj element])) source)
  | _ => None
  end.

(** [createElement(elementSource)] up to its first wait.  [elementId] is the
    identifier [uuid()] gives the new element, [id] the one it gives the
    command. *)
Definition createElement (elementId id : string) (p : Renderer.PromiseRef)
    (elementSource : JsObject) (this : VideoCreatorStore) : Outcome :=
  match renderer this with
  | None => nothing this
  | Some r =>
      match Renderer.state r with
      | None => nothing this
      | Some current =>
          let source := Renderer.getSource r None in
          match elements current with
          | None => type_error this
          | Some children =>
              let newTrack :=
                JsNum.add (JsNum.max (map track_number children)) (Finite 1) in
              let element :=
                spread elementSource
                  [("id", JStr elementId); ("track", JNum newTrack)] in
              match push_element element source with
              | None => type_error this
              | Some source => setSource_with_undo id p source this
              end
          end
      end
  end.

(** What [loadTemplate] and [setSource] do once their command has succeeded:
    [this._iframe.style.display = ''].  *)
Definition show_frame (r : Renderer.Renderer) : Renderer.Renderer :=
  Renderer.set_iframe
    (Renderer.mkIframe (Renderer.attached (Renderer._iframe r)) ""
       (Renderer.src (Renderer._iframe r))) r.

(** [createElement] once the promise of its command has settled.  When the
    source was accepted the Renderer shows its frame and the store selects
    the new element; when it was not, the failure is passed on under the
    prefix of [setSource] and nothing is selected. *)
Definition createElement_resume (elementId id : string) (p : Renderer.PromiseRef)
    (settled : Window.Settlement) (this : VideoCreatorStore) : Outcome :=
  match settled with
  | Window.Resolved _ =>
      let '(this', effects) :=
        setActiveElements id p [elementId]
          (set_renderer (show_frame <$> renderer this) this) in
      (this', effects, Renderer.Returned)
  | Window.Rejected reason =>
      (this, [], Renderer.Threw ("Failed to set source: " ++ reason))
  end.

(** *** The store behind its Renderer *)

(** The closures [initializeVideoPlayer] stores in the observer fields, by
    identity.  It stores none in [onError]. *)
Definition ready_closure : Renderer.Callback := 0.
Definition load_closure : Renderer.Callback := 1.
Definition loadComplete_closure : Renderer.Callback := 2.
Definition play_closure : Renderer.Callback := 3.
Definition pause_closure : Renderer.Callback := 4.
Definition timeChange_closure : Renderer.Callback := 5.
Definition activeElementsChange_closure : Renderer.Callback := 6.
Definition stateChange_closure : Renderer.Callback := 7.

(** [initializeVideoPlayer(htmlElement)]: the Renderer the store held, if any,
    is disposed and let go; a new one takes its place with the store's
    closures as observers. *)
Definition initializeVideoPlayer (this : VideoCreatorStore) : VideoCreatorStore :=
  let created := Renderer.new "interactive" "YOUR_PUBLIC_TOKEN_HERE" in
  set_renderer
    (Some
       (Renderer.mkRenderer (Some ready_closure) (Some load_closure)
          (Some loadComplete_closure) (Some play_closure) (Some pause_closure)
          None (Some timeChange_closure) (Some activeElementsChange_closure)
          (Some stateChange_closure) (Renderer.state created)
          (Renderer._iframe created) (Renderer._pendingPromises created)))
    this.

(** A [string[]] read off a value. *)
Fixpoint as_strings (items : list JsValue) : option (list string) :=
  match items with
  | [] => Some []
  | JStr s :: items' => cons s <$> as_strings items'
  | _ => None
  end.

(** A closure of the store called with what the Renderer hands it.  The
    closures are declared on [time: number], [elementIds: string[]] and
    [state: RendererState], whose [elements] the state-change closure hands
    to [groupBy]; the result is [None] on arguments of another shape.  A
    state-change without a state stores [undefined] and then fails reading
    [state.elements]. *)
Definition run_closure (cb : Renderer.Callback) (args : list Renderer.CallArg)
    (id : string) (p : Renderer.PromiseRef) (this : VideoCreatorStore)
  : option Outcome :=
  if Nat.eqb cb ready_closure then
    let '(this', effects) := onReady id p this in
    Some (this', effects, Renderer.Returned)
  else if Nat.eqb cb load_closure then Some (nothing (onLoad this))
  else if Nat.eqb cb loadComplete_closure then Some (nothing (onLoadComplete this))
  else if Nat.eqb cb play_closure then Some (nothing (onPlay this))
  else if Nat.eqb cb pause_closure then Some (nothing (onPause this))
  else if Nat.eqb cb timeChange_closure then
    match args with
    | [Renderer.ArgValue (JNum time)] => Some (nothing (onTimeChange time this))
    | _ => None
    end
  else if Nat.eqb cb activeElementsChange_closure then
    match args with
    | [Renderer.ArgValue (JArr items)] =>
        (fun elementIds => nothing (onActiveElementsChange elementIds this))
          <$> as_strings items
    | _ => None
    end
  else if Nat.eqb cb stateChange_closure then
    match args with
    | [Renderer.ArgState (Some state)] =>
        match elements state with
        | Some _ => Some (nothing (onStateChange state this))
        | None => None
        end
    | [Renderer.ArgState None] => Some (type_error (set_state None this))
    | _ => None
    end
  else None.

(** A [message] event reaches the window of a store: its Renderer handles
    it, and the observer the Renderer calls runs on the store. *)
Definition receive (id : string) (p : Renderer.PromiseRef)
    (data : option Renderer.DataObject) (this : VideoCreatorStore) : option Outcome :=
  match renderer this with
  | None => Some (nothing this)
  | Some r =>
      let '(r', effects, completion) := Renderer._handleMessage r data in
      let this' := set_renderer (Some r') this in
      match effects with
      | [Renderer.Notify cb _ args] => run_closure cb args id p this'
      | _ => Some (this', effects, completion)
      end
  end.

(** The store holds a Renderer that has the store's closures as observers,
    and both hold the same state. *)
Definition wired (this : VideoCreatorStore) : Prop :=
  match renderer this with
  | None => False
  | Some r =>
      Renderer.onReady r = Some ready_closure
      ∧ Renderer.onLoad r = Some load_closure
      ∧ Renderer.onLoadComplete r = Some loadComplete_closure
      ∧ Renderer.onPlay r = Some play_closure
      ∧ Renderer.onPause r = Some pause_closure
      ∧ Renderer.onError r = None
      ∧ Renderer.onTimeChange r = Some timeChange_closure
      ∧ Renderer.onActiveElementsChange r = Some activeElementsChange_closure
      ∧ Renderer.onStateChange r = Some stateChange_closure
      ∧ Renderer.state r = state this
  end.

End Editing.

(** What [rearrangeTracks] sends for one top-level element: the element's
    document with [track] swapped when the element sits on one of the two
    tracks, and the element's document as it is when it sits on neither. *)
Definition sent_for (track targetTrack : JsNumber) (element : ElementState)
    (sent : JsObject) : Prop :=
  let kept := ∀ k, k ≠ "track" → get k sent = get k (Renderer.getSource_of element) in
  if Editing.on_track track element
  then get "track" sent = JNum targetTrack ∧ kept
  else if Editing.on_track targetTrack element
       then get "track" sent = JNum track ∧ kept
       else sent = Renderer.getSource_of element.


(** * Properties *)

(** ** Objects *)

Lemma get_set_prop_eq k v o : get k (set_prop k v o) = v.
Proof.
  induction o as [|[k' v'] o IH]; simpl.
  - by rewrite String.eqb_refl.
  - destruct (String.eqb k' k) eqn:E; simpl.
    + by rewrite String.eqb_refl.
    + by rewrite E.
Qed.

Lemma get_set_prop_ne k k' v o : k' ≠ k -> get k' (set_prop k v o) = get k' o.
Proof.
  intros Hne. induction o as [|[k0 v0] o IH]; simpl.
  - destruct (String.eqb k k') eqn:E; [|done].
    apply String.eqb_eq in E. congruence.
  - destruct (String.eqb k0 k) eqn:E; simpl.
    + apply String.eqb_eq in E. subst k0.
      destruct (String.eqb k k') eqn:E'; [|done].
      apply String.eqb_eq in E'. congruence.
    + by rewrite IH.
Qed.

Lemma keys_set_prop k v o :
  keys (set_prop k v o) = if has_own k o then keys o else keys o ++ [k].
Proof.
  unfold keys, has_own. induction o as [|[k0 v0] o IH]; simpl; [done|].
  destruct (String.eqb k0 k) eqn:E; simpl.
  - apply String.eqb_eq in E. by subst.
  - rewrite IH. by destruct (existsb _ o).
Qed.

(** ** The element tree *)

Lemma filter_flat_map {A B} (f : B -> bool) (g : A -> list B) (l : list A) :
  List.filter f (flat_map g l) = flat_map (fun x => List.filter f (g x)) l.
Proof.
  induction l as [|x l IH]; simpl; [done|].
  by rewrite List.filter_app, IH.
Qed.

Lemma flat_map_ext_Forall {A B} (f g : A -> list B) (l : list A) :
  Forall (fun x => f x = g x) l -> flat_map f l = flat_map g l.
Proof.
  induction 1 as [|x l Hx _ IH]; simpl; [done|]. by rewrite Hx, IH.
Qed.

Lemma getElements_of_preorder (state : ElementState) :
  Renderer.getElements_of state = List.filter has_type_tag (preorder state).
Proof.
  induction state as [src res|src els res IH] using ElementState_tree_ind;
    simpl; unfold has_type_tag at 1; simpl;
    destruct (truthy (get "type" src)); simpl; try done.
  - f_equal. rewrite filter_flat_map. by apply flat_map_ext_Forall.
  - rewrite filter_flat_map. by apply flat_map_ext_Forall.
Qed.

Lemma find_app {A} (f : A -> bool) (l1 l2 : list A) :
  List.find f (l1 ++ l2) =
  match List.find f l1 with
  | Some x => Some x
  | None => List.find f l2
  end.
Proof.
  induction l1 as [|x l1 IH]; simpl; [done|]. by destruct (f x).
Qed.

Lemma findElement_of_descendants predicate (state : ElementState) :
  Renderer.findElement_of predicate state = List.find predicate (descendants state).
Proof.
  induction state as [src res|src els res IH] using ElementState_tree_ind;
    [done|].
  unfold descendants. simpl.
  induction IH as [|element rest Helement _ IHrest]; simpl; [done|].
  rewrite find_app. destruct element as [s [children|] r]; simpl.
  - destruct (predicate _); [done|].
    unfold descendants in Helement. simpl in Helement. rewrite Helement.
    destruct (List.find predicate (flat_map preorder children)); [done|].
    apply IHrest.
  - destruct (predicate _); [done|]. apply IHrest.
Qed.

(** C4.  [getSource], on the state it works on (its argument, or the cached
    state when it is given none): an empty document when there is no state;
    the node's source descriptor itself when the node has no child
    collection; otherwise the descriptor with [elements] holding the
    converted children in their order, every other property as it was and the
    properties in the order they had. *)
Theorem getSource_rebuilds_source (this : Renderer.Renderer) (arg : option ElementState) :
  match Renderer.default_state this arg with
  | None => Renderer.getSource this arg = []
  | Some state =>
      match elements state with
      | None => Renderer.getSource this arg = source state
      | Some children =>
          let document := Renderer.getSource this arg in
          get "elements" document =
            JArr (map (fun child => JObj (Renderer.getSource this (Some child))) children)
          ∧ (∀ k, k ≠ "elements" → get k document = get k (source state))
          ∧ keys document =
              if has_own "elements" (source state)
              then keys (source state)
              else keys (source state) ++ ["elements"]
      end
  end.
Proof.
  unfold Renderer.getSource.
  destruct (Renderer.default_state this arg) as [[src [children|] res]|]; simpl;
    [|done|done].
  split; [apply get_set_prop_eq|].
  split; [intros k Hk; by apply get_set_prop_ne|].
  apply keys_set_prop.
Qed.

(** C6.  [getElements] returns the nodes of the state it works on whose
    descriptor has a type tag, in depth-first pre-order; a node without a
    type tag is left out and its children are still visited; no state gives
    the empty sequence. *)
Theorem getElements_flattens (this : Renderer.Renderer) (arg : option ElementState) :
  Renderer.getElements this arg = flatten_spec (Renderer.default_state this arg).
Proof.
  unfold Renderer.getElements, flatten_spec.
  destruct (Renderer.default_state this arg) as [state|]; [|done].
  apply getElements_of_preorder.
Qed.

(** C7, as stated, fails: a root that satisfies the predicate is not found. *)
Lemma findElement_never_tests_the_root :
  let root := mkElementState [("id", JStr "root")] None [] in
  let this := Renderer.new "interactive" "token" in
  Renderer.findElement this (fun _ => true) (Some root) = None
  ∧ find_from_root (fun _ => true) (Renderer.default_state this (Some root)) = Some root.
Proof. split; reflexivity. Qed.

(** C7, amended.  [findElement] searches the nodes below the state it works
    on, typed or not, in depth-first pre-order (a node's children before its
    next sibling), and returns the first that satisfies the predicate; it
    returns [undefined] when none does or when there is no state.  The root
    itself is not tested. *)
Theorem findElement_searches_below_root (this : Renderer.Renderer)
    (predicate : ElementState -> bool) (arg : option ElementState) :
  Renderer.findElement this predicate arg =
  find_below_root predicate (Renderer.default_state this arg).
Proof.
  unfold Renderer.findElement, find_below_root.
  destruct (Renderer.default_state this arg) as [state|]; [|done].
  apply findElement_of_descendants.
Qed.

(** ** Outbound commands *)

(** C8, as stated, fails: the payload [play()] posts has no property [name];
    the command's name travels under [message]. *)
Lemma play_payload_has_no_name :
  let this := Renderer.new "interactive" "token" in
  let id := "062c5fa2-b9d1-4ebd-a8df-3f85f0d4ce89" in
  ∃ payload,
    snd (Renderer.play id 0 this) = [Renderer.PostMessage payload]
    ∧ get "name" payload = JUndefined
    ∧ get "message" payload = JStr "play".
Proof. eexists. split; [reflexivity|]. split; reflexivity. Qed.

(** C8, amended.  Every command posted to the peer is the payload
    [{ id, message, ...params }]: the identifier generated for the call under
    [id], then the command's name under [message], then the command's
    parameters as their JSON copies.  Nothing is posted once the frame is
    detached. *)
Theorem posted_command_shape (id : string) (p : Renderer.PromiseRef)
    (c : Renderer.Command) (this : Renderer.Renderer) :
  snd (Renderer.send id p c this) =
  if Renderer.attached (Renderer._iframe this)
  then [Renderer.PostMessage
          (("id", JStr id) :: ("message", JStr (Renderer.command_name c)) ::
           map (fun param => (fst param, json_clone (snd param)))
             (Renderer.command_params c))]
  else [].
Proof.
  unfold Renderer.send, Renderer._sendCommand. simpl.
  destruct (Renderer.attached _); [|done].
  by destruct c.
Qed.

(** ** Events *)

Lemma dispatch_event_recognize (this : Renderer.Renderer) (message : option string)
    (args : Renderer.Args) :
  Renderer.dispatch_event this message args =
  match recognize message with
  | None => (this, [])
  | Some StateChangeEvent =>
      let this' := Renderer.set_state (Renderer.args_state args) this in
      (this', Renderer.notify (Renderer.onStateChange this) this'
                [Renderer.ArgState (Renderer.args_state args)])
  | Some e => (this, Renderer.notify (observer_of e this) this (observer_args e args))
  end.
Proof.
  destruct message as [name|]; [|done].
  unfold Renderer.dispatch_event, recognize, event_names.
  cbn [List.find fst snd].
  repeat (match goal with
          | |- context [String.eqb ?a name] =>
              rewrite (String.eqb_sym a name); destruct (String.eqb name a); [done|]
          end).
  done.
Qed.

(** C5.  On a payload without an [id]: an unrecognized event name changes
    nothing and calls nobody; a state-change event replaces the cached state
    with the delivered one and then calls the observer, which already sees
    the new state; every other recognized event leaves the Renderer as it
    was and only calls its observer. *)
Theorem events_change_only_the_cached_state (this : Renderer.Renderer)
    (d : Renderer.DataObject) :
  Renderer.truthy_field (Renderer.data_id d) = false →
  Renderer._handleMessage this (Some d) =
  match recognize (Renderer.data_message d) with
  | None => (this, [], Renderer.Returned)
  | Some StateChangeEvent =>
      let delivered := Renderer.args_state (Renderer.data_args d) in
      let this' := Renderer.set_state delivered this in
      (this',
       match Renderer.onStateChange this with
       | Some observer => [Renderer.Notify observer this' [Renderer.ArgState delivered]]
       | None => []
       end,
       Renderer.Returned)
  | Some e =>
      (this,
       match observer_of e this with
       | Some observer =>
           [Renderer.Notify observer this (observer_args e (Renderer.data_args d))]
       | None => []
       end,
       Renderer.Returned)
  end.
Proof.
  intros Hid. unfold Renderer._handleMessage. rewrite Hid.
  rewrite dispatch_event_recognize.
  by destruct (recognize _) as [[]|].
Qed.

Lemma events_change_only_the_cached_state_witness :
  let fresh := Renderer.new "interactive" "token" in
  let this :=
    Renderer.mkRenderer None None None None None None None None (Some 7)
      None (Renderer._iframe fresh) ∅ in
  let tree := mkElementState [("width", JNum (Finite 1080))] (Some []) [] in
  let d := Renderer.mkData None (Some "onStateChange") None (Renderer.mkArgs (Some tree) []) in
  let this' := Renderer.set_state (Some tree) this in
  Renderer._handleMessage this (Some d)
  = (this', [Renderer.Notify 7 this' [Renderer.ArgState (Some tree)]], Renderer.Returned).
Proof.
  intros fresh this tree d this'.
  exact (events_change_only_the_cached_state this d (eq_refl false)).
Defined.

(** ** Replies *)

Import Window.

Lemma is_uuid_nonempty id : Renderer.is_uuid id = true → id ≠ "".
Proof. intros H ->. discriminate. Qed.

Lemma is_uuid_length id : Renderer.is_uuid id = true → String.length id = 36.
Proof.
  unfold Renderer.is_uuid.
  assert (∀ s i, Renderer.is_uuid_from i s = true → i + String.length s = 36) as Hgen.
  { induction s as [|c s IH]; intros i Hs; simpl in *.
    - apply Nat.eqb_eq in Hs. lia.
    - apply andb_prop in Hs as [_ Hs]. apply IH in Hs. lia. }
  intros H. by apply Hgen in H.
Qed.

Lemma is_uuid_not_inherited id :
  Renderer.is_uuid id = true → id ∉ Renderer.object_prototype_members.
Proof.
  intros H Hin. apply is_uuid_length in H.
  unfold Renderer.object_prototype_members in Hin.
  repeat (apply elem_of_cons in Hin as [->|Hin]; [discriminate|]).
  by apply elem_of_nil in Hin.
Qed.

Lemma truthy_field_Some id : id ≠ "" → Renderer.truthy_field (Some id) = true.
Proof.
  intros Hne. simpl. destruct (String.eqb id "") eqn:E; [|done].
  by apply String.eqb_eq in E.
Qed.

Lemma settlements_app p l1 l2 :
  settlements p (l1 ++ l2) = settlements p l1 ++ settlements p l2.
Proof. unfold settlements. apply omap_app. Qed.

Lemma settlements_settle_same p d : settlements p [settle p d] = [carried d].
Proof.
  unfold settle, carried, settlements.
  destruct (Renderer.truthy_field _); simpl; by rewrite Nat.eqb_refl.
Qed.

Lemma settlements_settle_other p q d : p ≠ q → settlements p [settle q d] = [].
Proof.
  intros Hne. unfold settle, settlements.
  destruct (Renderer.truthy_field _); simpl;
    by destruct (Nat.eqb_spec p q).
Qed.

Lemma dispatch_event_effects (this : Renderer.Renderer) message args :
  Renderer._pendingPromises (Renderer.dispatch_event this message args).1
  = Renderer._pendingPromises this
  ∧ ∀ p, settlements p (Renderer.dispatch_event this message args).2 = [].
Proof.
  rewrite dispatch_event_recognize.
  destruct (recognize message) as [e|]; [|done].
  destruct e; simpl; (split; [done|]); intros p; unfold Renderer.notify;
    by repeat case_match.
Qed.

(** A reply whose [id] has a pending entry settles that entry's promise once
    and removes the entry. *)
Lemma deliver_reply_pending (w : World) (d : Renderer.DataObject) id p :
  listening w = true →
  Renderer.data_id d = Some id → id ≠ "" →
  Renderer._pendingPromises (renderer w) !! id = Some p →
  deliver (Some d) w =
  mkWorld
    (Renderer.set_pendingPromises (delete id (Renderer._pendingPromises (renderer w)))
       (renderer w))
    true (promises w) (log w ++ [settle p d]) (uncaught w).
Proof.
  intros Hl Hid Hne Hp. unfold deliver, Renderer._handleMessage.
  rewrite Hl, Hid, truthy_field_Some by done. simpl.
  unfold Renderer.lookup_pending. rewrite Hp.
  by rewrite app_nil_r.
Qed.

(** A reply whose [id] has no pending entry and is not the name of a member of
    [Object.prototype] changes nothing. *)
Lemma deliver_reply_unknown (w : World) (d : Renderer.DataObject) id :
  Renderer.data_id d = Some id → id ≠ "" →
  Renderer._pendingPromises (renderer w) !! id = None →
  id ∉ Renderer.object_prototype_members →
  deliver (Some d) w = w.
Proof.
  intros Hid Hne Hp Hproto. unfold deliver, Renderer._handleMessage.
  destruct (listening w) eqn:Hl; [|done].
  rewrite Hid, truthy_field_Some by done. simpl.
  unfold Renderer.lookup_pending. rewrite Hp.
  rewrite bool_decide_eq_false_2 by done.
  destruct w; simpl in *. by rewrite !app_nil_r, Hl.
Qed.

(** Delivery in general: what it can do to the pending table and to the
    promises. *)
Lemma deliver_cases (o : option Renderer.DataObject) (w : World) :
  (∃ d id p,
      o = Some d ∧ Renderer.data_id d = Some id ∧ id ≠ ""
      ∧ listening w = true
      ∧ Renderer._pendingPromises (renderer w) !! id = Some p
      ∧ Renderer._pendingPromises (renderer (deliver o w))
        = delete id (Renderer._pendingPromises (renderer w))
      ∧ log (deliver o w) = log w ++ [settle p d])
  ∨ (Renderer._pendingPromises (renderer (deliver o w))
     = Renderer._pendingPromises (renderer w)
     ∧ ∀ p, settlements p (log (deliver o w)) = settlements p (log w)).
Proof.
  destruct (listening w) eqn:Hl; [|right; unfold deliver; by rewrite Hl].
  destruct o as [d|]; [|right; unfold deliver; rewrite Hl; simpl; by rewrite app_nil_r].
  destruct (Renderer.truthy_field (Renderer.data_id d)) eqn:Ht.
  - destruct (Renderer.data_id d) as [id|] eqn:Hid; [|done].
    assert (id ≠ "") as Hne by (intros ->; done).
    destruct (Renderer._pendingPromises (renderer w) !! id) as [p|] eqn:Hp.
    + left. exists d, id, p.
      rewrite (deliver_reply_pending w d id p) by done. done.
    + right. unfold deliver, Renderer._handleMessage.
      rewrite Hl, Hid, Ht. simpl. unfold Renderer.lookup_pending. rewrite Hp.
      destruct (bool_decide _); simpl; by rewrite app_nil_r.
  - right. unfold deliver, Renderer._handleMessage. rewrite Hl, Ht.
    pose proof (dispatch_event_effects (renderer w) (Renderer.data_message d)
                  (Renderer.data_args d)) as [Hpend Heff].
    destruct (Renderer.dispatch_event _ _ _) as [r effects]. simpl in *.
    split; [done|]. intros p. by rewrite settlements_app, Heff, app_nil_r.
Qed.

Lemma deliver_listening o w : listening (deliver o w) = listening w.
Proof.
  unfold deliver. destruct (listening w) eqn:Hl; [|done].
  by destruct (Renderer._handleMessage _ _) as [[? ?] ?].
Qed.

Lemma deliver_unowned o w p :
  unowned w p →
  unowned (deliver o w) p
  ∧ settlements p (log (deliver o w)) = settlements p (log w).
Proof.
  intros Hun.
  destruct (deliver_cases o w) as [(d & id & q & _ & _ & _ & _ & Hq & Hpend & Hlog)|[Hpend Hlog]].
  - split.
    + intros k. rewrite Hpend. intros Hk.
      apply lookup_delete_Some in Hk as [_ Hk]. by apply (Hun k).
    + rewrite Hlog, settlements_app, settlements_settle_other, app_nil_r; [done|].
      intros ->. by apply (Hun id).
  - split; [|done]. intros k. rewrite Hpend. apply Hun.
Qed.

Lemma deliver_all_unowned ds w p :
  unowned w p →
  settlements p (log (deliver_all ds w)) = settlements p (log w).
Proof.
  revert w. induction ds as [|o ds IH]; intros w Hun; [done|].
  simpl. destruct (deliver_unowned o w p Hun) as [Hun' Hlog].
  by rewrite IH, Hlog.
Qed.

Lemma deliver_other o w id p :
  owned_by w id p → id_of o ≠ Some id →
  owned_by (deliver o w) id p
  ∧ settlements p (log (deliver o w)) = settlements p (log w).
Proof.
  intros [Hown Hothers] Hid.
  destruct (deliver_cases o w) as [(d & id' & q & -> & Hid' & _ & _ & Hq & Hpend & Hlog)|[Hpend Hlog]].
  - assert (id' ≠ id) as Hne by (intros ->; simpl in Hid; congruence).
    split; [split|].
    + rewrite Hpend. by rewrite lookup_delete_ne.
    + intros k Hk. rewrite Hpend. intros Hkp.
      apply lookup_delete_Some in Hkp as [_ Hkp]. by apply (Hothers k).
    + rewrite Hlog, settlements_app, settlements_settle_other, app_nil_r; [done|].
      intros ->. by apply (Hothers id').
  - split; [|done]. split; [by rewrite Hpend|].
    intros k Hk. rewrite Hpend. by apply Hothers.
Qed.

Lemma deliver_own d w id p :
  listening w = true → owned_by w id p →
  Renderer.data_id d = Some id → id ≠ "" →
  unowned (deliver (Some d) w) p
  ∧ settlements p (log (deliver (Some d) w)) = settlements p (log w) ++ [carried d].
Proof.
  intros Hl [Hown Hothers] Hid Hne.
  rewrite (deliver_reply_pending w d id p) by done. simpl. split.
  - intros k Hk. simpl in Hk. apply lookup_delete_Some in Hk as [Hk1 Hk2].
    by apply (Hothers k).
  - by rewrite settlements_app, settlements_settle_same.
Qed.

(** Whatever arrives before and after it, the first reply carrying [id]
    settles the promise registered under [id], and nothing else does. *)
Lemma deliver_all_settles_once before d after w id p :
  listening w = true → owned_by w id p →
  Renderer.data_id d = Some id → id ≠ "" →
  Forall (fun o => id_of o ≠ Some id) before →
  settlements p (log (deliver_all (before ++ Some d :: after) w))
  = settlements p (log w) ++ [carried d].
Proof.
  intros Hl Hown Hid Hne Hbefore. revert w Hl Hown.
  induction Hbefore as [|o before Ho _ IH]; intros w Hl Hown; simpl.
  - destruct (deliver_own d w id p Hl Hown Hid Hne) as [Hun Hlog].
    by rewrite deliver_all_unowned, Hlog.
  - destruct (deliver_other o w id p Hown Ho) as [Hown' Hlog].
    rewrite IH; [by rewrite Hlog| by rewrite deliver_listening | done].
Qed.

(** ** Issuing commands *)

Lemma issue_all_cons id c cs w :
  issue_all ((id, c) :: cs) w =
  ((issue id c w).1 :: (issue_all cs (issue id c w).2).1,
   (issue_all cs (issue id c w).2).2).
Proof.
  cbn [issue_all]. destruct (issue id c w) as [p w1].
  cbn [fst snd]. by destruct (issue_all cs w1).
Qed.

Lemma issue_fields id c w :
  Renderer._pendingPromises (renderer (issue id c w).2)
  = <[id := promises w]> (Renderer._pendingPromises (renderer w))
  ∧ promises (issue id c w).2 = S (promises w)
  ∧ listening (issue id c w).2 = listening w
  ∧ (issue id c w).1 = promises w
  ∧ ∀ p, settlements p (log (issue id c w).2) = settlements p (log w).
Proof.
  unfold issue, Renderer.send, Renderer._sendCommand. simpl.
  repeat split; try done.
  intros p. rewrite settlements_app.
  destruct (Renderer.attached _); simpl; by rewrite app_nil_r.
Qed.

Lemma issue_consistent id c w : consistent w → consistent (issue id c w).2.
Proof.
  intros Hc. unfold consistent.
  destruct (issue_fields id c w) as (-> & -> & _).
  apply map_Forall_insert_2; [lia|].
  eapply map_Forall_impl; [exact Hc|]. simpl. lia.
Qed.

Lemma issue_owned_new id c w :
  consistent w → owned_by (issue id c w).2 id (promises w).
Proof.
  intros Hc. unfold owned_by.
  destruct (issue_fields id c w) as (-> & _). split.
  - by rewrite lookup_insert_eq.
  - intros k Hk. rewrite lookup_insert_ne by done. intros Hp.
    apply Hc in Hp. simpl in Hp. lia.
Qed.

Lemma issue_owned_old id c w id' p :
  owned_by w id' p → id ≠ id' → p < promises w →
  owned_by (issue id c w).2 id' p.
Proof.
  intros [Hown Hothers] Hne Hlt. unfold owned_by.
  destruct (issue_fields id c w) as (-> & _). split.
  - by rewrite lookup_insert_ne.
  - intros k Hk. destruct (decide (k = id)) as [->|Hkid].
    + rewrite lookup_insert_eq. intros [= <-]. lia.
    + rewrite lookup_insert_ne by done. by apply Hothers.
Qed.

Lemma issue_all_owned_old cs w id p :
  owned_by w id p → id ∉ map fst cs → p < promises w →
  owned_by (issue_all cs w).2 id p.
Proof.
  revert w. induction cs as [|[id' c] cs IH]; intros w Hown Hnotin Hlt; [done|].
  rewrite issue_all_cons. cbn [map fst snd] in *.
  apply not_elem_of_cons in Hnotin as [Hne Hnotin].
  pose proof (issue_fields id' c w) as (_ & Hprom & _).
  pose proof (issue_owned_old id' c w id p Hown (not_eq_sym Hne) Hlt) as Hown'.
  apply IH; [done|done|lia].
Qed.

(** After a batch of commands with distinct identifiers, the i-th command's
    promise is the i-th one created, sits under the i-th identifier and
    nowhere else, and nothing has been settled. *)
Lemma issue_all_spec cs w :
  consistent w → NoDup (map fst cs) →
  (issue_all cs w).1 = seq (promises w) (length cs)
  ∧ listening (issue_all cs w).2 = listening w
  ∧ (∀ p, settlements p (log (issue_all cs w).2) = settlements p (log w))
  ∧ ∀ i id c, cs !! i = Some (id, c) → owned_by (issue_all cs w).2 id (promises w + i).
Proof.
  revert w. induction cs as [|[id c] cs IH]; intros w Hc Hnd.
  { simpl. by repeat split. }
  cbn [map fst] in Hnd. apply NoDup_cons in Hnd as [Hnotin Hnd].
  rewrite issue_all_cons. cbn [fst snd length].
  pose proof (issue_fields id c w) as (_ & Hprom & Hlisten & Hp & Hlog).
  pose proof (issue_consistent id c w Hc) as Hc'.
  pose proof (issue_owned_new id c w Hc) as Hown.
  destruct (IH (issue id c w).2 Hc' Hnd) as (IHps & IHlisten & IHlog & IHown).
  pose proof (issue_all_owned_old cs (issue id c w).2 id (promises w) Hown Hnotin
                ltac:(lia)) as Hkeep.
  split; [by rewrite IHps, Hprom, Hp|].
  split; [congruence|].
  split; [intros q; by rewrite IHlog, Hlog|].
  intros [|i] id' c' Hi; simpl in Hi.
  - injection Hi as <- <-. by rewrite Nat.add_0_r.
  - apply IHown in Hi. rewrite Hprom in Hi.
    by replace (promises w + S i) with (S (promises w) + i) by lia.
Qed.

(** C2.  Commands are issued with the distinct identifiers [uuid()] gave
    them; each gets one reply, and the replies arrive in any order.  Then
    every command's promise is settled exactly once, with the result carried
    by the reply that bears its identifier. *)
Theorem each_caller_gets_its_own_reply (w : World)
    (cs : list (string * Renderer.Command))
    (replies arrival : list Renderer.DataObject) :
  listening w = true →
  consistent w →
  NoDup (map fst cs) →
  Forall (fun id => Renderer.is_uuid id = true) (map fst cs) →
  map Renderer.data_id replies = map (fun c => Some (fst c)) cs →
  arrival ≡ₚ replies →
  let callers := (issue_all cs w).1 in
  let w' := deliver_all (map Some arrival) (issue_all cs w).2 in
  length callers = length cs
  ∧ NoDup callers
  ∧ ∀ i p d, callers !! i = Some p → replies !! i = Some d →
      settlements p (log w') = settlements p (log w) ++ [carried d].
Proof.
  intros Hl Hc Hnd Huuid Hids Hperm callers w'.
  destruct (issue_all_spec cs w Hc Hnd) as (Hps & Hlisten & Hlog & Hown).
  subst callers. rewrite Hps.
  split; [by rewrite length_seq|]. split; [apply NoDup_seq|].
  intros i p d Hp Hd.
  apply lookup_seq in Hp as [-> Hi].
  destruct (lookup_lt_is_Some_2 cs i Hi) as [[id c] Hcs].
  assert (Renderer.data_id d = Some id) as Hid.
  { assert (map Renderer.data_id replies !! i = Some (Renderer.data_id d)) as H1
      by (by rewrite list_lookup_fmap, Hd).
    rewrite Hids, list_lookup_fmap, Hcs in H1. simpl in H1. congruence. }
  assert (id ≠ "") as Hne.
  { apply is_uuid_nonempty. rewrite Forall_forall in Huuid. apply Huuid.
    apply (list_elem_of_fmap_2' fst _ (id, c)); [|done].
    by eapply list_elem_of_lookup_2. }
  assert (NoDup (map Renderer.data_id arrival)) as Hnd'.
  { rewrite Hperm, Hids.
    replace (map (λ c0 : string * Renderer.Command, Some c0.1) cs)
      with (Some <$> (map fst cs)) by (by rewrite <- list_fmap_compose).
    apply NoDup_fmap_2; [apply _|done]. }
  assert (d ∈ arrival) as Hin.
  { rewrite Hperm. by eapply list_elem_of_lookup_2. }
  apply list_elem_of_split in Hin as (before & after & ->).
  subst w'. rewrite map_app. simpl.
  rewrite (deliver_all_settles_once _ d _ _ id (promises w + i)); try done.
  - by rewrite Hlog.
  - congruence.
  - by apply Hown with c.
  - rewrite map_app in Hnd'. simpl in Hnd'.
    apply NoDup_app in Hnd' as (_ & Hdisj & _).
    apply Forall_forall. intros o Ho.
    apply list_elem_of_fmap in Ho as (d' & -> & Hd').
    simpl. intros Heq. apply (Hdisj (Renderer.data_id d')).
    + by apply list_elem_of_fmap_2.
    + rewrite Heq, <- Hid. apply elem_of_cons. by left.
Qed.

Lemma each_caller_gets_its_own_reply_witness :
  let w := create "interactive" "token" in
  let a := "062c5fa2-b9d1-4ebd-a8df-3f85f0d4ce89" in
  let b := "46103952-a528-465c-be32-58a5678c929d" in
  let c := "54f16c97-bcb1-4cab-9c64-3b763bcc4b89" in
  let cs := [(a, Renderer.Play); (b, Renderer.Undo); (c, Renderer.SetTime (Finite 2))] in
  let ra := Renderer.mkData (Some a) None None (Renderer.mkArgs None []) in
  let rb := Renderer.mkData (Some b) None (Some "nothing to undo") (Renderer.mkArgs None []) in
  let rc := Renderer.mkData (Some c) None None (Renderer.mkArgs None [("time", JNum (Finite 2))]) in
  let w' := deliver_all [Some rc; Some ra; Some rb] (issue_all cs w).2 in
  settlements 0 (log w') = [Resolved (Renderer.mkArgs None [])]
  ∧ settlements 1 (log w') = [Rejected "nothing to undo"]
  ∧ settlements 2 (log w') = [Resolved (Renderer.mkArgs None [("time", JNum (Finite 2))])].
Proof.
  intros w a b c cs ra rb rc w'.
  assert (listening w = true) as Hl by reflexivity.
  assert (consistent w) as Hc by apply map_Forall_empty.
  assert (NoDup (map fst cs)) as Hnd by compute_done.
  assert (Forall (fun id => Renderer.is_uuid id = true) (map fst cs)) as Hu
    by (repeat constructor).
  assert (map Renderer.data_id [ra; rb; rc] = map (fun c => Some (fst c)) cs) as Hids
    by reflexivity.
  assert ([rc; ra; rb] ≡ₚ [ra; rb; rc]) as Hperm
    by apply (Permutation_cons_append [ra; rb] rc).
  destruct (each_caller_gets_its_own_reply w cs [ra; rb; rc] [rc; ra; rb]
              Hl Hc Hnd Hu Hids Hperm) as (_ & _ & H).
  split; [exact (H 0 0 ra eq_refl eq_refl)|].
  split; [exact (H 1 1 rb eq_refl eq_refl)|].
  exact (H 2 2 rc eq_refl eq_refl).
Defined.

(** ** Disposal *)

(** C1, as stated, fails: a call pending when [dispose()] runs is not
    rejected, and its entry stays in the table. *)
Lemma dispose_rejects_nothing :
  let id := "062c5fa2-b9d1-4ebd-a8df-3f85f0d4ce89" in
  let w := (issue id Renderer.Play (create "interactive" "token")).2 in
  Renderer._pendingPromises (renderer w) !! id = Some 0
  ∧ Renderer._pendingPromises (renderer (dispose w)) !! id = Some 0
  ∧ settlements 0 (log (dispose w)) = [].
Proof. repeat split. Qed.

Lemma deliver_all_not_listening ds w : listening w = false → deliver_all ds w = w.
Proof.
  intros Hl. induction ds as [|o ds IH]; [done|].
  cbn [deliver_all fold_left].
  replace (deliver o w) with w by (unfold deliver; by rewrite Hl).
  exact IH.
Qed.

(** C1, amended.  [dispose()] takes the message listener and the frame away
    and settles nothing: the pending table is what it was, no promise is
    resolved or rejected, and no message arriving afterwards changes that, so
    a call pending at disposal stays pending. *)
Theorem pending_calls_outlive_disposal (w : World) (later : list (option Renderer.DataObject)) :
  let w' := deliver_all later (dispose w) in
  Renderer._pendingPromises (renderer w') = Renderer._pendingPromises (renderer w)
  ∧ log w' = log w
  ∧ listening w' = false.
Proof.
  intros w'. subst w'. by rewrite deliver_all_not_listening.
Qed.

(** ** Replies without a live entry *)

(** C3 at a reply whose [id] is the name of a member of [Object.prototype]:
    nothing is pending, and the handler throws. *)
Theorem reply_named_like_an_inherited_member_throws :
  let w := create "interactive" "token" in
  let d := Renderer.mkData (Some "toString") None None (Renderer.mkArgs None []) in
  Renderer._pendingPromises (renderer w) = ∅
  ∧ Renderer._handleMessage (renderer w) (Some d)
    = (renderer w, [], Renderer.Threw "TypeError: pendingPromise.resolve is not a function")
  ∧ uncaught (deliver (Some d) w)
    = ["TypeError: pendingPromise.resolve is not a function"].
Proof. repeat split. Qed.

(** X6.  For the identifiers commands are issued with, C3 holds: the first
    reply settles the promise once and removes the entry, and the same reply
    delivered again changes nothing. *)
Lemma duplicate_reply_is_ignored (w : World) (d : Renderer.DataObject) id p :
  listening w = true →
  Renderer.is_uuid id = true →
  Renderer.data_id d = Some id →
  Renderer._pendingPromises (renderer w) !! id = Some p →
  log (deliver (Some d) w) = log w ++ [settle p d]
  ∧ Renderer._pendingPromises (renderer (deliver (Some d) w)) !! id = None
  ∧ deliver (Some d) (deliver (Some d) w) = deliver (Some d) w.
Proof.
  intros Hl Huuid Hid Hp.
  pose proof (is_uuid_nonempty id Huuid) as Hne.
  rewrite (deliver_reply_pending w d id p) by done.
  split; [done|]. split; [apply lookup_delete_eq|].
  apply (deliver_reply_unknown _ d id); try done.
  - apply lookup_delete_eq.
  - by apply is_uuid_not_inherited.
Qed.

(** ** The store's playback time *)

(** C9, as stated, fails: the store's [setTime] writes the cached time
    itself. *)
Lemma setTime_writes_the_cached_time :
  let this := VideoCreatorStore.new in
  let id := "062c5fa2-b9d1-4ebd-a8df-3f85f0d4ce89" in
  VideoCreatorStore.time this = Finite 0
  ∧ VideoCreatorStore.time (VideoCreatorStore.setTime id 0 (Finite 5) this).1 = Finite 5.
Proof. split; reflexivity. Qed.

(** C9, amended.  The Renderer's [setTime] touches nothing but the pending
    table.  The store's [setTime(t)] sets the cached time to [t] itself.
    A time-change event sets the cached time unless [isScrubbing] is true,
    in which case it leaves the store as it is.  The store's
    [setActiveElements] and its other observers leave the cached time as it
    was. *)
Theorem cached_time_writers (this : VideoCreatorStore.VideoCreatorStore) :
  (∀ id p t r,
      (Renderer.setTime id p t r).1
      = Renderer.set_pendingPromises (<[id := p]> (Renderer._pendingPromises r)) r)
  ∧ (∀ id p t, VideoCreatorStore.time (VideoCreatorStore.setTime id p t this).1 = t)
  ∧ (∀ t, VideoCreatorStore.onTimeChange t this
          = if VideoCreatorStore.isScrubbing this
            then this
            else VideoCreatorStore.set_time t this)
  ∧ (∀ a, VideoCreatorStore.time (VideoCreatorStore.step a this)
          = match a with
            | VideoCreatorStore.CallSetTime _ _ t => t
            | VideoCreatorStore.EventTimeChange t =>
                if VideoCreatorStore.isScrubbing this
                then VideoCreatorStore.time this
                else t
            | _ => VideoCreatorStore.time this
            end).
Proof.
  assert (∀ id p c s, VideoCreatorStore.time (VideoCreatorStore.forward id p c s).1
                      = VideoCreatorStore.time s) as Hforward.
  { intros id p c s. unfold VideoCreatorStore.forward.
    by destruct (VideoCreatorStore.renderer s). }
  split; [done|].
  split; [intros id p t; unfold VideoCreatorStore.setTime; by rewrite Hforward|].
  split.
  { intros t. unfold VideoCreatorStore.onTimeChange.
    by destruct (VideoCreatorStore.isScrubbing this). }
  intros [id p t|id p ids|v|id p| | | | |t|ids|state]; simpl; try done.
  - unfold VideoCreatorStore.setTime. by rewrite Hforward.
  - unfold VideoCreatorStore.setActiveElements. by rewrite Hforward.
  - unfold VideoCreatorStore.onReady. by rewrite Hforward.
  - unfold VideoCreatorStore.onTimeChange.
    by destruct (VideoCreatorStore.isScrubbing this).
Qed.

(** ** The store's selection *)

(** X20.  Called on the singleton itself, [getActiveElement] looks up the
    first id of the store's own selection. *)
Lemma getActiveElement_on_the_singleton (videoCreator : VideoCreatorStore.VideoCreatorStore) :
  VideoCreatorStore.getActiveElement videoCreator videoCreator
  = getActiveElement_own videoCreator.
Proof.
  unfold VideoCreatorStore.getActiveElement, getActiveElement_own.
  destruct (VideoCreatorStore.renderer videoCreator); [|done].
  by destruct (VideoCreatorStore.activeElementIds videoCreator).
Qed.

(** C10 at a store that is not the singleton: the element returned is the
    one the singleton has selected, not the one this store has. *)
Theorem getActiveElement_reads_the_singleton :
  let a := mkElementState [("id", JStr "a"); ("type", JStr "image")] None
             [("track", JNum (Finite 1))] in
  let b := mkElementState [("id", JStr "b"); ("type", JStr "text")] None
             [("track", JNum (Finite 2))] in
  let root := mkElementState [("width", JNum (Finite 1080))] (Some [a; b]) [] in
  let r := Renderer.set_state (Some root) (Renderer.new "interactive" "token") in
  let loaded :=
    VideoCreatorStore.set_state (Some root)
      (VideoCreatorStore.set_renderer (Some r) VideoCreatorStore.new) in
  let videoCreator := VideoCreatorStore.set_activeElementIds ["b"] loaded in
  let this := VideoCreatorStore.set_activeElementIds ["a"] loaded in
  VideoCreatorStore.getActiveElement videoCreator this = Some b
  ∧ getActiveElement_own this = Some a.
Proof. split; reflexivity. Qed.

(** ** The scenario of the specification *)

Example scenario_flatten_and_toSource :
  let a := mkElementState [("id", JStr "a"); ("type", JStr "image"); ("track", JNum (Finite 1))]
             None [("track", JNum (Finite 1))] in
  let group := mkElementState [("id", JStr "g"); ("elements", JArr [])]
                 (Some [a]) [("track", JNum (Finite 2))] in
  let b := mkElementState [("id", JStr "b"); ("type", JStr "text"); ("track", JNum (Finite 3))]
             None [("track", JNum (Finite 3))] in
  let root := mkElementState [("width", JNum (Finite 1080)); ("elements", JArr [])]
                (Some [group; b]) [] in
  let this := Renderer.set_state (Some root) (Renderer.new "interactive" "token") in
  Renderer.getElements this None = [a; b]
  ∧ Renderer.findElement this (fun e => negb (has_type_tag e)) None = Some group
  ∧ Renderer.getSource this None
    = [("width", JNum (Finite 1080));
       ("elements",
        JArr [JObj [("id", JStr "g"); ("elements", JArr [JObj (source a)])];
              JObj (source b)])].
Proof. repeat split. Qed.

(** * Further properties *)

(** ** Round trip of the source document *)

Lemma set_prop_same k v o :
  has_own k o = true → get k o = v → set_prop k v o = o.
Proof.
  unfold has_own. induction o as [|[k' v'] o IH]; simpl; [done|].
  destruct (String.eqb k' k) eqn:E; simpl.
  - intros _ ->. apply String.eqb_eq in E. by subst.
  - intros Hown Hget. by rewrite IH.
Qed.

(** X1.  On a state tree that mirrors its source document (every node with
    children carries their descriptors under [elements]), [getSource] gives
    back the root's descriptor, property for property. *)
Theorem getSource_round_trip (this : Renderer.Renderer) (state : ElementState) :
  mirrors_source state →
  Renderer.getSource this (Some state) = source state.
Proof.
  unfold Renderer.getSource. simpl.
  induction state as [src res|src els res IH] using ElementState_tree_ind;
    [done|].
  simpl. intros (Hown & Hget & Hall).
  apply set_prop_same; [done|]. rewrite Hget. f_equal.
  clear Hown Hget. induction IH as [|child rest Hchild _ IHrest]; simpl; [done|].
  destruct Hall as [Hmirror Hall]. by rewrite Hchild, IHrest.
Qed.

Lemma getSource_round_trip_witness :
  let a := mkElementState [("id", JStr "a"); ("type", JStr "image")] None
             [("track", JNum (Finite 1))] in
  let b := mkElementState [("id", JStr "b"); ("type", JStr "text")] None
             [("track", JNum (Finite 2))] in
  let document :=
    [("width", JNum (Finite 1080));
     ("elements", JArr [JObj (source a); JObj (source b)]);
     ("height", JNum (Finite 1080))] in
  let state := mkElementState document (Some [a; b]) [] in
  Renderer.getSource (Renderer.new "interactive" "token") (Some state) = document.
Proof.
  intros a b document state.
  apply (getSource_round_trip (Renderer.new "interactive" "token") state).
  simpl. done.
Defined.

(** ** What a posted payload can hold *)

Lemma clone_props_safe (props : list (string * JsValue)) :
  Forall (fun kv => snd kv ≠ JUndefined → json_safe (json_clone (snd kv)) = true) props →
  json_safe (json_clone (JObj props)) = true.
Proof.
  induction 1 as [|[k x] props Hx _ IH]; [done|].
  simpl in *. destruct x; simpl in *; try exact IH;
    rewrite ?Hx by done; try exact IH.
  all: rewrite Hx by done; exact IH.
Qed.

Lemma json_clone_safe (v : JsValue) :
  v ≠ JUndefined → json_safe (json_clone v) = true.
Proof.
  induction v as [| | | | |items IH|props IH] using JsValue_tree_ind; intros Hv;
    try done.
  - by destruct n.
  - simpl. clear Hv. induction IH as [|x items Hx _ IHitems]; [done|].
    simpl. rewrite IHitems, andb_true_r.
    destruct x; try done; by apply Hx.
  - by apply clone_props_safe.
Qed.

Lemma json_clone_fixed (v : JsValue) :
  json_safe v = true → json_clone v = v.
Proof.
  induction v as [| | | | |items IH|props IH] using JsValue_tree_ind; intros Hv;
    try done.
  - by destruct n.
  - simpl in *. f_equal.
    induction IH as [|x items Hx _ IHitems]; [done|].
    simpl in Hv. apply andb_prop in Hv as [Hx' Hitems].
    simpl. rewrite IHitems by done. f_equal.
    destruct x; try done; by apply Hx.
  - simpl in *. f_equal.
    induction IH as [|[k x] props Hx _ IHprops]; [done|].
    apply andb_prop in Hv as [Hx' Hprops]. simpl in Hx.
    rewrite IHprops by done.
    destruct x; try done; by rewrite Hx.
Qed.

Lemma json_safe_set_prop k v o :
  json_safe v = true → json_safe (JObj o) = true →
  json_safe (JObj (set_prop k v o)) = true.
Proof.
  intros Hv. induction o as [|[k' v'] o IH]; simpl.
  - by rewrite Hv.
  - intros Ho. apply andb_prop in Ho as [Hv' Ho].
    destruct (String.eqb k' k); simpl.
    + by rewrite Hv, Ho.
    + rewrite Hv'. by apply IH.
Qed.

Lemma json_safe_spread b acc :
  json_safe (JObj b) = true → json_safe (JObj acc) = true →
  json_safe (JObj (spread b acc)) = true.
Proof.
  unfold spread. revert acc. induction b as [|[k v] b IH]; intros acc Hb Hacc; [done|].
  simpl in Hb. apply andb_prop in Hb as [Hv Hb]. simpl.
  apply IH; [done|]. by apply json_safe_set_prop.
Qed.

(** X2.  Whatever the command object holds, the payload [_sendCommand] posts
    is plain JSON: no [undefined], no [NaN], no infinity, at any depth; and
    copying it through JSON once more gives the same payload. *)
Theorem posted_payload_is_plain_json (id : string) (p : Renderer.PromiseRef)
    (message : JsObject) (this : Renderer.Renderer) :
  forallb
    (fun effect =>
       match effect with
       | Renderer.PostMessage payload =>
           json_safe (JObj payload)
       | _ => false
       end)
    (Renderer._sendCommand id p message this).2 = true
  ∧ ∀ payload,
      Renderer.PostMessage payload ∈ (Renderer._sendCommand id p message this).2 →
      json_clone_object payload = payload.
Proof.
  assert (json_safe (JObj (spread (json_clone_object message) [("id", JStr id)])) = true)
    as Hsafe.
  { apply json_safe_spread; [|done].
    unfold json_clone_object.
    pose proof (json_clone_safe (JObj message) ltac:(done)) as H.
    by destruct (json_clone (JObj message)). }
  unfold Renderer._sendCommand. cbn [snd].
  destruct (Renderer.attached _); cbn [forallb].
  - split; [by rewrite Hsafe|].
    intros payload Hin. apply list_elem_of_singleton in Hin. injection Hin as ->.
    unfold json_clone_object at 1. by rewrite json_clone_fixed.
  - split; [done|]. intros payload Hin. by apply elem_of_nil in Hin.
Qed.

(** ** Replies and events keep to themselves *)




(** ** A command sent after disposal *)

(** X4.  A command issued on a disposed Renderer posts nothing, yet its
    promise is registered; no message that arrives afterwards settles it or
    changes anything. *)
Theorem command_after_dispose_never_settles (w : World) (id : string)
    (c : Renderer.Command) (later : list (option Renderer.DataObject)) :
  let issued := issue id c (Window.dispose w) in
  log issued.2 = log w
  ∧ Renderer._pendingPromises (renderer issued.2) !! id = Some issued.1
  ∧ deliver_all later issued.2 = issued.2.
Proof.
  cbv zeta. split; [|split].
  - unfold issue, Window.dispose, Renderer.send, Renderer._sendCommand. simpl.
    apply app_nil_r.
  - destruct (issue_fields id c (Window.dispose w)) as (-> & _ & _ & -> & _).
    apply lookup_insert_eq.
  - apply deliver_all_not_listening.
    by destruct (issue_fields id c (Window.dispose w)) as (_ & _ & -> & _).
Qed.

(** ** Replies nobody waits for *)

(** X5.  A reply whose [id] is neither pending nor the name of a member of
    [Object.prototype] is dropped: the Renderer is unchanged, nothing is
    called, nothing is thrown. *)
Theorem unknown_reply_is_dropped (this : Renderer.Renderer) (d : Renderer.DataObject)
    (id : string) :
  Renderer.data_id d = Some id → id ≠ "" →
  Renderer._pendingPromises this !! id = None →
  id ∉ Renderer.object_prototype_members →
  Renderer._handleMessage this (Some d) = (this, [], Renderer.Returned).
Proof.
  intros Hid Hne Hp Hproto. unfold Renderer._handleMessage.
  rewrite Hid, truthy_field_Some by done. simpl.
  unfold Renderer.lookup_pending. rewrite Hp.
  by rewrite bool_decide_eq_false_2.
Qed.

Lemma unknown_reply_is_dropped_witness :
  let this := Renderer.new "interactive" "token" in
  let d := Renderer.mkData (Some "062c5fa2-b9d1-4ebd-a8df-3f85f0d4ce89") None
             (Some "too late") (Renderer.mkArgs None []) in
  Renderer._handleMessage this (Some d) = (this, [], Renderer.Returned).
Proof.
  intros this d.
  apply (unknown_reply_is_dropped this d "062c5fa2-b9d1-4ebd-a8df-3f85f0d4ce89");
    [reflexivity|discriminate|reflexivity|].
  apply is_uuid_not_inherited. reflexivity.
Defined.

Lemma duplicate_reply_is_ignored_witness :
  let id := "062c5fa2-b9d1-4ebd-a8df-3f85f0d4ce89" in
  let w := (issue id Renderer.Play (create "interactive" "token")).2 in
  let d := Renderer.mkData (Some id) None None (Renderer.mkArgs None []) in
  log (deliver (Some d) w) = log w ++ [settle 0 d]
  ∧ Renderer._pendingPromises (renderer (deliver (Some d) w)) !! id = None
  ∧ deliver (Some d) (deliver (Some d) w) = deliver (Some d) w.
Proof.
  intros id w d.
  exact (duplicate_reply_is_ignored w d id 0 eq_refl eq_refl eq_refl eq_refl).
Defined.

(** ** The selection lookup *)

Lemma findElement_Some (this : Renderer.Renderer) predicate arg e :
  Renderer.findElement this predicate arg = Some e → predicate e = true.
Proof.
  unfold Renderer.findElement.
  destruct (Renderer.default_state this arg) as [state|]; [|done].
  rewrite findElement_of_descendants. intros H. by apply List.find_some in H as [_ H].
Qed.

(** X7.  An element [getActiveElement] returns carries, as its [source.id],
    the first id of the singleton's selection. *)
Theorem getActiveElement_returns_the_selected_id
    (videoCreator this : VideoCreatorStore.VideoCreatorStore) (e : ElementState) :
  VideoCreatorStore.getActiveElement videoCreator this = Some e →
  VideoCreatorStore.same_id (get "id" (source e))
    (head (VideoCreatorStore.activeElementIds videoCreator)) = true.
Proof.
  unfold VideoCreatorStore.getActiveElement.
  destruct (VideoCreatorStore.renderer this) as [r|]; [|done].
  destruct (Nat.eqb _ 0); [done|].
  intros H. by apply findElement_Some in H.
Qed.

Lemma getActiveElement_returns_the_selected_id_witness :
  let b := mkElementState [("id", JStr "b"); ("type", JStr "text")] None
             [("track", JNum (Finite 2))] in
  let group := mkElementState [("id", JStr "g")] (Some [b]) [("track", JNum (Finite 1))] in
  let root := mkElementState [("width", JNum (Finite 1080))] (Some [group]) [] in
  let r := Renderer.set_state (Some root) (Renderer.new "interactive" "token") in
  let videoCreator :=
    VideoCreatorStore.set_activeElementIds ["b"]
      (VideoCreatorStore.set_state (Some root)
         (VideoCreatorStore.set_renderer (Some r) VideoCreatorStore.new)) in
  VideoCreatorStore.getActiveElement videoCreator videoCreator = Some b
  ∧ VideoCreatorStore.same_id (get "id" (source b))
      (head (VideoCreatorStore.activeElementIds videoCreator)) = true.
Proof.
  intros b group root r videoCreator.
  assert (VideoCreatorStore.getActiveElement videoCreator videoCreator = Some b) as H
    by reflexivity.
  split; [exact H|].
  exact (getActiveElement_returns_the_selected_id videoCreator videoCreator b H).
Defined.

(** ** Editing through the store *)

Import Editing.

(** The payload of [setSource(document, true)]. *)
Lemma setSource_with_undo_sends id p document this r :
  VideoCreatorStore.renderer this = Some r →
  setSource_with_undo id p document this =
  (VideoCreatorStore.set_renderer
     (Some (Renderer.set_pendingPromises (<[id := p]> (Renderer._pendingPromises r)) r))
     this,
   if Renderer.attached (Renderer._iframe r)
   then [Renderer.PostMessage
           [("id", JStr id); ("message", JStr "setSource");
            ("source", json_clone (JObj document));
            ("createUndoPoint", JBool true)]]
   else [],
   Renderer.Returned).
Proof.
  intros Hr. unfold setSource_with_undo, VideoCreatorStore.forward. rewrite Hr.
  unfold Renderer.send, Renderer._sendCommand.
  by destruct (Renderer.attached _).
Qed.

Lemma filter_all {A} (f : A → bool) (l : list A) :
  Forall (fun x => f x = true) l → List.filter f l = l.
Proof.
  induction 1 as [|x l Hx _ IH]; simpl; [done|]. by rewrite Hx, IH.
Qed.

(** X8.  [deleteElement] sends one [setSource] with an undo point.  Its
    document is the current one with, under [elements], the converted
    top-level elements whose [source.id] is not the given id, in their order;
    every other property of the document is as [getSource] gives it.  The
    cached state of the Renderer is not touched. *)
Theorem deleteElement_sends_the_others (id : string) (p : Renderer.PromiseRef)
    (elementId : string) (this : VideoCreatorStore.VideoCreatorStore)
    (r : Renderer.Renderer) (current : ElementState) (children : list ElementState) :
  VideoCreatorStore.renderer this = Some r →
  Renderer.attached (Renderer._iframe r) = true →
  Renderer.state r = Some current →
  elements current = Some children →
  ∃ document,
    deleteElement id p elementId this =
    (VideoCreatorStore.set_renderer
       (Some (Renderer.set_pendingPromises (<[id := p]> (Renderer._pendingPromises r)) r))
       this,
     [Renderer.PostMessage
        [("id", JStr id); ("message", JStr "setSource");
         ("source", json_clone (JObj document));
         ("createUndoPoint", JBool true)]],
     Renderer.Returned)
    ∧ get "elements" document =
        JArr (map (fun e => JObj (Renderer.getSource r (Some e)))
                (List.filter (other_than elementId) children))
    ∧ (∀ k, k ≠ "elements" → get k document = get k (Renderer.getSource r None))
    ∧ (Forall (fun e => other_than elementId e = true) children →
       document = Renderer.getSource r None).
Proof.
  intros Hr Hattached Hstate Hchildren.
  destruct current as [src els res]. simpl in Hchildren. subst els.
  eexists. unfold deleteElement. rewrite Hr, Hstate. unfold deepClone. simpl.
  rewrite (setSource_with_undo_sends _ _ _ _ r Hr), Hattached.
  split; [reflexivity|].
  unfold Renderer.getSource, Renderer.default_state. rewrite Hstate. simpl.
  split; [apply get_set_prop_eq|]. split.
  - intros k Hk. by rewrite !get_set_prop_ne.
  - intros Hall. by rewrite filter_all.
Qed.

Lemma deleteElement_sends_the_others_witness :
  let a := mkElementState [("id", JStr "a"); ("type", JStr "image")] None
             [("track", JNum (Finite 1))] in
  let b := mkElementState [("id", JStr "b"); ("type", JStr "text")] None
             [("track", JNum (Finite 2))] in
  let root := mkElementState [("width", JNum (Finite 1080)); ("elements", JArr [])]
                (Some [a; b]) [] in
  let r := Renderer.set_state (Some root) (Renderer.new "interactive" "token") in
  let this := VideoCreatorStore.set_renderer (Some r) VideoCreatorStore.new in
  ∃ document,
    (deleteElement "062c5fa2-b9d1-4ebd-a8df-3f85f0d4ce89" 0 "a" this).1.2
    = [Renderer.PostMessage
         [("id", JStr "062c5fa2-b9d1-4ebd-a8df-3f85f0d4ce89");
          ("message", JStr "setSource");
          ("source", json_clone (JObj document));
          ("createUndoPoint", JBool true)]]
    ∧ get "elements" document = JArr [JObj (source b)].
Proof.
  intros a b root r this.
  destruct (deleteElement_sends_the_others "062c5fa2-b9d1-4ebd-a8df-3f85f0d4ce89" 0 "a"
              this r root [a; b] eq_refl eq_refl eq_refl eq_refl)
    as (document & Hcall & Helements & _).
  exists document. split; [by rewrite Hcall|exact Helements].
Defined.

(** X9.  Before anything is loaded - the store has no Renderer, or its
    Renderer has no state yet - [deleteElement], [rearrangeTracks] and
    [createElement] do nothing at all: no command, no change, no error. *)
Theorem edits_before_load_do_nothing (this : VideoCreatorStore.VideoCreatorStore) :
  (∀ r, VideoCreatorStore.renderer this = Some r → Renderer.state r = None) →
  (∀ id p elementId, deleteElement id p elementId this = (this, [], Renderer.Returned))
  ∧ (∀ id p track direction,
        rearrangeTracks id p track direction this = (this, [], Renderer.Returned))
  ∧ (∀ elementId id p elementSource,
        createElement elementId id p elementSource this = (this, [], Renderer.Returned)).
Proof.
  intros H. unfold deleteElement, rearrangeTracks, createElement.
  destruct (VideoCreatorStore.renderer this) as [r|]; [|done].
  by rewrite (H r eq_refl).
Qed.

Lemma edits_before_load_do_nothing_witness :
  let this :=
    VideoCreatorStore.set_renderer (Some (Renderer.new "interactive" "token"))
      VideoCreatorStore.new in
  deleteElement "062c5fa2-b9d1-4ebd-a8df-3f85f0d4ce89" 0 "a" this
  = (this, [], Renderer.Returned).
Proof.
  intros this.
  refine (proj1 (edits_before_load_do_nothing this _) _ _ _).
  intros r [= <-]. reflexivity.
Defined.


(** ** Rearranging tracks *)

Lemma lt_after_step_down (track : JsNumber) :
  JsNum.lt track (Finite 2) = true →
  JsNum.lt (JsNum.sub track (Finite 1)) (Finite 1) = true.
Proof.
  destruct track as [|[|]|x]; simpl; try done.
  intros H. apply negb_true_iff in H. apply negb_true_iff.
  destruct (Qle_bool 1 (x + - 1)) eqn:E; [|done].
  apply Qle_bool_iff in E.
  assert (Qle_bool 2 x = true) as H'; [|congruence].
  apply Qle_bool_iff. unfold Qle, Qplus, Qopp in *. simpl in *. lia.
Qed.

(** X10.  Moving a track down when its number is below 2 - the first track,
    in particular - does nothing: the target would lie below track 1. *)
Theorem rearrangeTracks_below_first_track (id : string) (p : Renderer.PromiseRef)
    (track : JsNumber) (this : VideoCreatorStore.VideoCreatorStore) :
  JsNum.lt track (Finite 2) = true →
  rearrangeTracks id p track down this = (this, [], Renderer.Returned).
Proof.
  intros Hlt. unfold rearrangeTracks.
  destruct (VideoCreatorStore.renderer this) as [r|]; [|done].
  destruct (Renderer.state r) as [current|]; [|done].
  by rewrite lt_after_step_down.
Qed.

Lemma rearrangeTracks_below_first_track_witness :
  let a := mkElementState [("id", JStr "a"); ("track", JNum (Finite 1))] None
             [("track", JNum (Finite 1))] in
  let root := mkElementState [("elements", JArr [])] (Some [a]) [] in
  let r := Renderer.set_state (Some root) (Renderer.new "interactive" "token") in
  let this := VideoCreatorStore.set_renderer (Some r) VideoCreatorStore.new in
  rearrangeTracks "062c5fa2-b9d1-4ebd-a8df-3f85f0d4ce89" 0 (Finite 1) down this
  = (this, [], Renderer.Returned).
Proof.
  intros a root r this.
  exact (rearrangeTracks_below_first_track _ 0 (Finite 1) this eq_refl).
Defined.

Lemma filter_none {A} (f : A → bool) (l : list A) :
  Forall (fun x => f x = false) l → List.filter f l = [].
Proof.
  induction 1 as [|x l Hx _ IH]; simpl; [done|]. by rewrite Hx.
Qed.

(** X11.  [rearrangeTracks] does nothing when no top-level element sits on
    the given track. *)
Theorem rearrangeTracks_of_an_empty_track (id : string) (p : Renderer.PromiseRef)
    (track : JsNumber) (direction : Direction)
    (this : VideoCreatorStore.VideoCreatorStore) (r : Renderer.Renderer)
    (current : ElementState) (children : list ElementState) :
  VideoCreatorStore.renderer this = Some r →
  Renderer.state r = Some current →
  elements current = Some children →
  Forall (fun e => on_track track e = false) children →
  rearrangeTracks id p track direction this = (this, [], Renderer.Returned).
Proof.
  intros Hr Hstate Hchildren Hnone. unfold rearrangeTracks.
  rewrite Hr, Hstate, Hchildren, filter_none by done.
  by destruct (JsNum.lt _ _).
Qed.

Lemma rearrangeTracks_of_an_empty_track_witness :
  let a := mkElementState [("id", JStr "a"); ("track", JNum (Finite 1))] None
             [("track", JNum (Finite 1))] in
  let root := mkElementState [("elements", JArr [])] (Some [a]) [] in
  let r := Renderer.set_state (Some root) (Renderer.new "interactive" "token") in
  let this := VideoCreatorStore.set_renderer (Some r) VideoCreatorStore.new in
  rearrangeTracks "062c5fa2-b9d1-4ebd-a8df-3f85f0d4ce89" 0 (Finite 5) up this
  = (this, [], Renderer.Returned).
Proof.
  intros a root r this.
  apply (rearrangeTracks_of_an_empty_track _ 0 (Finite 5) up this r root [a]);
    try reflexivity.
  repeat constructor.
Defined.

Lemma get_getSource_with_track k t (e : ElementState) :
  get k (Renderer.getSource_of (with_source_track t e)) =
  if String.eqb k "track" then JNum t else get k (Renderer.getSource_of e).
Proof.
  destruct e as [src [children|] res]; unfold with_source_track; simpl.
  - destruct (String.eqb_spec k "track") as [->|Hk].
    + rewrite get_set_prop_ne by done. apply get_set_prop_eq.
    + destruct (String.eqb_spec k "elements") as [->|Hk'].
      * by rewrite !get_set_prop_eq.
      * by rewrite !get_set_prop_ne.
  - destruct (String.eqb_spec k "track") as [->|Hk].
    + apply get_set_prop_eq.
    + by rewrite get_set_prop_ne.
Qed.

Lemma swap_track_sent track targetTrack (e : ElementState) :
  sent_for track targetTrack e (Renderer.getSource_of (swap_track track targetTrack e)).
Proof.
  unfold sent_for, swap_track.
  destruct (on_track track e).
  - split; [by rewrite get_getSource_with_track|].
    intros k Hk. rewrite get_getSource_with_track.
    by destruct (String.eqb_spec k "track").
  - destruct (on_track targetTrack e); [|done].
    split; [by rewrite get_getSource_with_track|].
    intros k Hk. rewrite get_getSource_with_track.
    by destruct (String.eqb_spec k "track").
Qed.

(** X12.  When the track number is a safe integer, some top-level element
    sits on that track and the target track is not below 1, [rearrangeTracks] sends one [setSource] with an
    undo point.  Its document has as many elements as the state, in the same
    order: an element on the given track is sent with [track] set to the
    target, an element on the target track with [track] set to the given
    one, both otherwise unchanged, and every other element exactly as
    [getSource] gives it. *)
Theorem rearrangeTracks_swaps_two_tracks (id : string) (p : Renderer.PromiseRef)
    (track : JsNumber) (direction : Direction)
    (this : VideoCreatorStore.VideoCreatorStore) (r : Renderer.Renderer)
    (current : ElementState) (children : list ElementState) :
  let targetTrack :=
    match direction with
    | up => JsNum.add track (Finite 1)
    | down => JsNum.sub track (Finite 1)
    end in
  JsNum.is_safe_integer track = true →
  VideoCreatorStore.renderer this = Some r →
  Renderer.attached (Renderer._iframe r) = true →
  Renderer.state r = Some current →
  elements current = Some children →
  JsNum.lt targetTrack (Finite 1) = false →
  Exists (fun e => on_track track e = true) children →
  ∃ document sent,
    rearrangeTracks id p track direction this =
    (VideoCreatorStore.set_renderer
       (Some (Renderer.set_pendingPromises (<[id := p]> (Renderer._pendingPromises r)) r))
       this,
     [Renderer.PostMessage
        [("id", JStr id); ("message", JStr "setSource");
         ("source", json_clone (JObj document));
         ("createUndoPoint", JBool true)]],
     Renderer.Returned)
    ∧ get "elements" document = JArr (map JObj sent)
    ∧ (∀ k, k ≠ "elements" → get k document = get k (Renderer.getSource r None))
    ∧ Forall2 (sent_for track targetTrack) children sent.
Proof.
  intros targetTrack _ Hr Hattached Hstate Hchildren Hlt Hsome.
  destruct current as [src els res]. simpl in Hchildren. subst els.
  exists (Renderer.getSource r
            (Some (mkElementState src (Some (map (swap_track track targetTrack) children)) res))),
         (map (fun e => Renderer.getSource_of (swap_track track targetTrack e)) children).
  split; [|split; [|split]].
  - unfold rearrangeTracks. rewrite Hr, Hstate. fold targetTrack. rewrite Hlt.
    cbn [elements].
    assert (Nat.eqb (length (List.filter (on_track track) children)) 0 = false) as ->.
    { apply Nat.eqb_neq. intros Hlen. apply length_zero_iff_nil in Hlen.
      apply Exists_exists in Hsome as (e & Hin & He).
      assert (e ∈ List.filter (on_track track) children) as Hfiltered
        by (apply list_elem_of_In, List.filter_In; split; [by apply list_elem_of_In|done]).
      rewrite Hlen in Hfiltered. by apply elem_of_nil in Hfiltered. }
    unfold deepClone. cbn [source resolved].
    by rewrite (setSource_with_undo_sends _ _ _ _ r Hr), Hattached.
  - unfold Renderer.getSource. simpl. rewrite get_set_prop_eq. f_equal.
    by rewrite !map_map.
  - intros k Hk. unfold Renderer.getSource, Renderer.default_state.
    rewrite Hstate. simpl. by rewrite !get_set_prop_ne.
  - clear. induction children as [|e children IH]; simpl; constructor; [|done].
    apply swap_track_sent.
Qed.

Lemma rearrangeTracks_swaps_two_tracks_witness :
  let a := mkElementState [("id", JStr "a"); ("track", JNum (Finite 1))] None
             [("track", JNum (Finite 1))] in
  let b := mkElementState [("id", JStr "b"); ("track", JNum (Finite 2))] None
             [("track", JNum (Finite 2))] in
  let c := mkElementState [("id", JStr "c"); ("track", JNum (Finite 3))] None
             [("track", JNum (Finite 3))] in
  let root := mkElementState [("elements", JArr [])] (Some [a; b; c]) [] in
  let r := Renderer.set_state (Some root) (Renderer.new "interactive" "token") in
  let this := VideoCreatorStore.set_renderer (Some r) VideoCreatorStore.new in
  ∃ document sent,
    (rearrangeTracks "062c5fa2-b9d1-4ebd-a8df-3f85f0d4ce89" 0 (Finite 1) up this).1.2
    = [Renderer.PostMessage
         [("id", JStr "062c5fa2-b9d1-4ebd-a8df-3f85f0d4ce89");
          ("message", JStr "setSource");
          ("source", json_clone (JObj document));
          ("createUndoPoint", JBool true)]]
    ∧ get "elements" document = JArr (map JObj sent)
    ∧ Forall2 (sent_for (Finite 1) (Finite (1 + 1))) [a; b; c] sent.
Proof.
  intros a b c root r this.
  destruct (rearrangeTracks_swaps_two_tracks "062c5fa2-b9d1-4ebd-a8df-3f85f0d4ce89" 0
              (Finite 1) up this r root [a; b; c]
              eq_refl eq_refl eq_refl eq_refl eq_refl eq_refl
              (Exists_cons_hd _ a [b; c] eq_refl))
    as (document & sent & Hcall & Helements & _ & Hsent).
  exists document, sent. split; [by rewrite Hcall|]. split; [exact Helements|exact Hsent].
Defined.

(** ** Creating an element *)

Lemma has_own_keys k (o : JsObject) : has_own k o = true ↔ k ∈ keys o.
Proof.
  unfold has_own, keys. induction o as [|[k' v] o IH]; simpl.
  - split; [done|]. intros H. by apply elem_of_nil in H.
  - rewrite elem_of_cons, orb_true_iff, IH, String.eqb_eq. split; intros [?|?]; auto.
Qed.

Lemma has_own_cons k k0 v0 (o : JsObject) :
  has_own k ((k0, v0) :: o) = String.eqb k0 k || has_own k o.
Proof. reflexivity. Qed.

Lemma get_spread k (b acc : JsObject) :
  NoDup (keys b) →
  get k (spread b acc) = if has_own k b then get k b else get k acc.
Proof.
  unfold spread. revert acc. induction b as [|[k0 v0] b IH]; intros acc Hnd; [done|].
  cbn [keys map fst] in Hnd. apply NoDup_cons in Hnd as [Hnotin Hnd].
  cbn [fold_left fst snd]. rewrite IH by done.
  rewrite has_own_cons. cbn [get].
  destruct (String.eqb_spec k0 k) as [->|Hne]; cbn [orb].
  - destruct (has_own k b) eqn:Hown.
    + apply has_own_keys in Hown. done.
    + apply get_set_prop_eq.
  - destruct (has_own k b); [done|].
    by rewrite get_set_prop_ne.
Qed.

Lemma get_json_clone_object k (o : JsObject) :
  get k o ≠ JUndefined →
  get k (json_clone_object o) = json_clone (get k o).
Proof.
  unfold json_clone_object. cbn [json_clone].
  induction o as [|[k0 v0] o IH]; [done|].
  cbn [get]. destruct (String.eqb k0 k) eqn:E.
  - intros Hv. destruct v0; try done; cbn [get]; by rewrite E.
  - intros Hv. destruct v0; cbn [get]; rewrite ?E; by apply IH.
Qed.

(** X13.  [createElement] sends one [setSource] with an undo point whose
    document is the current one with one element more: the converted
    top-level elements stay, in their order, and the new element comes last.
    The new element has the properties of [elementSource], and besides them
    the generated [id] and the computed [track] unless [elementSource] has
    properties of those names, which then win. *)
Theorem createElement_appends_one_element (elementId id : string)
    (p : Renderer.PromiseRef) (elementSource : JsObject)
    (this : VideoCreatorStore.VideoCreatorStore) (r : Renderer.Renderer)
    (current : ElementState) (children : list ElementState) :
  NoDup (keys elementSource) →
  VideoCreatorStore.renderer this = Some r →
  Renderer.attached (Renderer._iframe r) = true →
  Renderer.state r = Some current →
  elements current = Some children →
  ∃ document element,
    createElement elementId id p elementSource this =
    (VideoCreatorStore.set_renderer
       (Some (Renderer.set_pendingPromises (<[id := p]> (Renderer._pendingPromises r)) r))
       this,
     [Renderer.PostMessage
        [("id", JStr id); ("message", JStr "setSource");
         ("source", json_clone (JObj document));
         ("createUndoPoint", JBool true)]],
     Renderer.Returned)
    ∧ get "elements" document =
        JArr (map (fun e => JObj (Renderer.getSource r (Some e))) children
              ++ [JObj element])
    ∧ (∀ k, k ≠ "elements" → get k document = get k (Renderer.getSource r None))
    ∧ (∀ k, has_own k elementSource = true → get k element = get k elementSource)
    ∧ (has_own "id" elementSource = false → get "id" element = JStr elementId)
    ∧ (has_own "track" elementSource = false →
       ∃ newTrack, get "track" element = JNum newTrack)
    ∧ (∀ k, has_own k elementSource = false → k ≠ "id" → k ≠ "track" →
       get k element = JUndefined).
Proof.
  intros Hnd Hr Hattached Hstate Hchildren.
  destruct current as [src els res]. simpl in Hchildren. subst els.
  eexists _, (spread elementSource _).
  split; [|split; [|split; [|split; [|split; [|split]]]]].
  - unfold createElement. rewrite Hr, Hstate. cbn [elements].
    unfold Renderer.getSource, Renderer.default_state. rewrite Hstate.
    cbn [Renderer.getSource_of]. unfold push_element. rewrite get_set_prop_eq.
    rewrite (setSource_with_undo_sends _ _ _ _ r Hr), Hattached. reflexivity.
  - by rewrite get_set_prop_eq.
  - intros k Hk. unfold Renderer.getSource, Renderer.default_state.
    rewrite Hstate. cbn [Renderer.getSource_of]. by rewrite !get_set_prop_ne.
  - intros k Hk. by rewrite get_spread, Hk.
  - intros Hk. by rewrite get_spread, Hk.
  - intros Hk. eexists. by rewrite get_spread, Hk.
  - intros k Hk Hid Htrack. rewrite get_spread, Hk by done. cbn [get].
    destruct (String.eqb_spec "id" k) as [E|_]; [by subst|].
    destruct (String.eqb_spec "track" k) as [E|_]; [by subst|]. done.
Qed.




Lemma createElement_sends (elementId id : string)
    (p : Renderer.PromiseRef) (elementSource : JsObject)
    (this : VideoCreatorStore.VideoCreatorStore) (r : Renderer.Renderer)
    (current : ElementState) (children : list ElementState) :
  VideoCreatorStore.renderer this = Some r →
  Renderer.attached (Renderer._iframe r) = true →
  Renderer.state r = Some current →
  elements current = Some children →
  createElement elementId id p elementSource this =
  (VideoCreatorStore.set_renderer
     (Some (Renderer.set_pendingPromises (<[id := p]> (Renderer._pendingPromises r)) r))
     this,
   [Renderer.PostMessage
      [("id", JStr id); ("message", JStr "setSource");
       ("source",
        json_clone
          (JObj
             (set_prop "elements"
                (JArr
                   (map (fun e => JObj (Renderer.getSource_of e)) children
                    ++ [JObj
                          (spread elementSource
                             [("id", JStr elementId);
                              ("track",
                               JNum (JsNum.add (JsNum.max (map track_number children))
                                       (Finite 1)))])]))
                (Renderer.getSource r None))));
       ("createUndoPoint", JBool true)]],
   Renderer.Returned).
Proof.
  intros Hr Hattached Hstate Hchildren.
  destruct current as [src els res]. simpl in Hchildren. subst els.
  unfold createElement. rewrite Hr, Hstate. cbn [elements].
  unfold Renderer.getSource, Renderer.default_state. rewrite Hstate.
  cbn [Renderer.getSource_of]. unfold push_element. rewrite get_set_prop_eq.
  rewrite (setSource_with_undo_sends _ _ _ _ r Hr), Hattached. reflexivity.
Qed.


Lemma json_clone_JObj o : json_clone (JObj o) = JObj (json_clone_object o).
Proof. reflexivity. Qed.

(** X15.  When the state has no top-level element and [elementSource] names
    no track, the track computed for the new element is minus infinity, which
    the payload cannot carry: the element is sent with [track: null]. *)
Theorem createElement_first_element_has_no_track (elementId id : string)
    (p : Renderer.PromiseRef) (elementSource : JsObject)
    (this : VideoCreatorStore.VideoCreatorStore) (r : Renderer.Renderer)
    (current : ElementState) :
  NoDup (keys elementSource) →
  has_own "track" elementSource = false →
  VideoCreatorStore.renderer this = Some r →
  Renderer.attached (Renderer._iframe r) = true →
  Renderer.state r = Some current →
  elements current = Some [] →
  ∃ document element,
    (createElement elementId id p elementSource this).1.2 =
     [Renderer.PostMessage
        [("id", JStr id); ("message", JStr "setSource");
         ("source", JObj document);
         ("createUndoPoint", JBool true)]]
    ∧ get "elements" document = JArr [JObj element]
    ∧ get "track" element = JNull.
Proof.
  intros Hnd Htrack Hr Hattached Hstate Hchildren.
  rewrite (createElement_sends _ _ _ _ _ r current []) by done.
  rewrite json_clone_JObj. eexists _, _. split; [reflexivity|].
  rewrite get_json_clone_object by (by rewrite get_set_prop_eq).
  rewrite get_set_prop_eq. cbn [map app json_clone]. rewrite <- json_clone_JObj.
  split; [reflexivity|].
  rewrite get_json_clone_object; rewrite get_spread, Htrack by done; done.
Qed.

Lemma createElement_appends_one_element_witness :
  let a := mkElementState [("id", JStr "a"); ("track", JNum (Finite 1))] None
             [("track", JNum (Finite 1))] in
  let root := mkElementState [("width", JNum (Finite 1080)); ("elements", JArr [])]
                (Some [a]) [] in
  let r := Renderer.set_state (Some root) (Renderer.new "interactive" "token") in
  let this := VideoCreatorStore.set_renderer (Some r) VideoCreatorStore.new in
  let elementSource := [("type", JStr "text"); ("id", JStr "mine")] in
  ∃ document element,
    (createElement "46103952-a528-465c-be32-58a5678c929d"
       "062c5fa2-b9d1-4ebd-a8df-3f85f0d4ce89" 0 elementSource this).1.2
    = [Renderer.PostMessage
         [("id", JStr "062c5fa2-b9d1-4ebd-a8df-3f85f0d4ce89");
          ("message", JStr "setSource");
          ("source", json_clone (JObj document));
          ("createUndoPoint", JBool true)]]
    ∧ get "elements" document = JArr [JObj (source a); JObj element]
    ∧ get "id" element = JStr "mine"
    ∧ get "type" element = JStr "text".
Proof.
  intros a root r this elementSource.
  assert (NoDup (keys elementSource)) as Hnd by compute_done.
  destruct (createElement_appends_one_element "46103952-a528-465c-be32-58a5678c929d"
              "062c5fa2-b9d1-4ebd-a8df-3f85f0d4ce89" 0 elementSource this r root [a]
              Hnd eq_refl eq_refl eq_refl eq_refl)
    as (document & element & Hcall & Helements & _ & Hown & _).
  exists document, element. split; [by rewrite Hcall|]. split; [exact Helements|].
  split; [exact (Hown "id" eq_refl)|exact (Hown "type" eq_refl)].
Defined.


Lemma createElement_first_element_has_no_track_witness :
  let root := mkElementState [("width", JNum (Finite 1080)); ("elements", JArr [])]
                (Some []) [] in
  let r := Renderer.set_state (Some root) (Renderer.new "interactive" "token") in
  let this := VideoCreatorStore.set_renderer (Some r) VideoCreatorStore.new in
  let elementSource := [("type", JStr "text")] in
  ∃ document element,
    (createElement "46103952-a528-465c-be32-58a5678c929d"
       "062c5fa2-b9d1-4ebd-a8df-3f85f0d4ce89" 0 elementSource this).1.2
    = [Renderer.PostMessage
         [("id", JStr "062c5fa2-b9d1-4ebd-a8df-3f85f0d4ce89");
          ("message", JStr "setSource");
          ("source", JObj document);
          ("createUndoPoint", JBool true)]]
    ∧ get "elements" document = JArr [JObj element]
    ∧ get "track" element = JNull.
Proof.
  intros root r this elementSource.
  assert (NoDup (keys elementSource)) as Hnd by compute_done.
  exact (createElement_first_element_has_no_track
           "46103952-a528-465c-be32-58a5678c929d"
           "062c5fa2-b9d1-4ebd-a8df-3f85f0d4ce89" 0 elementSource this r root
           Hnd eq_refl eq_refl eq_refl eq_refl eq_refl).
Defined.

(** ** The store behind its Renderer *)




Lemma wired_set_renderer_same (s : VideoCreatorStore.VideoCreatorStore) r :
  VideoCreatorStore.renderer s = Some r →
  VideoCreatorStore.set_renderer (Some r) s = s.
Proof. destruct s. simpl. by intros ->. Qed.




(** X17.  [initializeVideoPlayer] gives the Renderer no [onError] observer, so
    an error event from the peer calls nobody and changes nothing in the
    store or its Renderer. *)
Theorem error_event_reaches_nobody (id : string) (p : Renderer.PromiseRef)
    (d : Renderer.DataObject) (this : VideoCreatorStore.VideoCreatorStore) :
  wired this →
  Renderer.truthy_field (Renderer.data_id d) = false →
  Renderer.data_message d = Some "onError" →
  receive id p (Some d) this = Some (this, [], Renderer.Returned).
Proof.
  unfold wired, receive. intros Hw Hid Hmessage.
  destruct (VideoCreatorStore.renderer this) as [r|] eqn:Hr; [|done].
  destruct Hw as (_ & _ & _ & _ & _ & Herror & _).
  unfold Renderer._handleMessage. rewrite Hid, Hmessage. simpl. rewrite Herror. simpl.
  by rewrite wired_set_renderer_same.
Qed.

Lemma error_event_reaches_nobody_witness :
  let this := initializeVideoPlayer VideoCreatorStore.new in
  let d := Renderer.mkData None (Some "onError") (Some "render failed")
             (Renderer.mkArgs None []) in
  receive "062c5fa2-b9d1-4ebd-a8df-3f85f0d4ce89" 0 (Some d) this
  = Some (this, [], Renderer.Returned).
Proof.
  intros this d.
  apply (error_event_reaches_nobody _ 0 d this); [|reflexivity|reflexivity].
  unfold wired. simpl. by repeat split.
Defined.

(** X18.  A time-change event carrying a number, arriving at the window of a
    store as [initializeVideoPlayer] set it up, sets the store's playback
    time to that number unless the store is scrubbing, in which case nothing
    changes; either way nothing is sent and the Renderer is left as it
    was. *)
Theorem time_change_event_reaches_the_store (id : string) (p : Renderer.PromiseRef)
    (d : Renderer.DataObject) (time : JsNumber)
    (this : VideoCreatorStore.VideoCreatorStore) :
  wired this →
  Renderer.truthy_field (Renderer.data_id d) = false →
  Renderer.data_message d = Some "onTimeChange" →
  get "time" (Renderer.args_rest (Renderer.data_args d)) = JNum time →
  receive id p (Some d) this =
  Some (if VideoCreatorStore.isScrubbing this
        then this
        else VideoCreatorStore.set_time time this,
        [], Renderer.Returned).
Proof.
  unfold wired, receive. intros Hw Hid Hmessage Htime.
  destruct (VideoCreatorStore.renderer this) as [r|] eqn:Hr; [|done].
  destruct Hw as (_ & _ & _ & _ & _ & _ & Hobserver & _).
  unfold Renderer._handleMessage. rewrite Hid, Hmessage. simpl.
  rewrite Hobserver. cbn [Renderer.notify]. rewrite Htime.
  rewrite wired_set_renderer_same by done.
  unfold run_closure, timeChange_closure, nothing. simpl.
  unfold VideoCreatorStore.onTimeChange.
  by destruct (VideoCreatorStore.isScrubbing this).
Qed.

Lemma time_change_event_reaches_the_store_witness :
  let this := VideoCreatorStore.set_isScrubbing true
                (initializeVideoPlayer VideoCreatorStore.new) in
  let d := Renderer.mkData None (Some "onTimeChange") None
             (Renderer.mkArgs None [("time", JNum (Finite 3))]) in
  receive "062c5fa2-b9d1-4ebd-a8df-3f85f0d4ce89" 0 (Some d) this
  = Some (this, [], Renderer.Returned).
Proof.
  intros this d.
  apply (time_change_event_reaches_the_store _ 0 d (Finite 3) this);
    [|reflexivity|reflexivity|reflexivity].
  unfold wired. simpl. by repeat split.
Defined.


